(** * Apache server-status URL extractor: a shallow embedding of tool.py

    The development follows the layout of the script:
    - [PyStr]    the Python [str] operations the script relies on;
    - [UrlParse] [urllib.parse.urlsplit] / [urlparse], which the script calls;
    - [Regex]    a backtracking matcher for the fragment of [re] that the
                 request-line pattern uses;
    - [Tool]     [clean_url], [Requester.fetch], [Parser.is_valid],
                 [Parser.extract_urls], [process_url] and the loop of [main].

    Strings are Rocq strings: sequences of characters with code points
    below 256.  Exceptions are values of [result]; the run-scoped set
    [seen_urls], the network and the console are threaded explicitly. *)

From Stdlib Require Import Ascii String ZArith NArith Lia Bool.
From stdpp Require Import base list strings gmap.

(** ** Exceptions as values *)

Inductive exn : Type := ValueError | TypeError.

Inductive result (A : Type) : Type :=
| Ok (a : A)
| Raise (e : exn).
Arguments Ok {A} a.
Arguments Raise {A} e.

#[global] Instance result_ret : MRet result := fun A a => Ok a.
#[global] Instance result_bind : MBind result := fun A B f m =>
  match m with
  | Ok a => f a
  | Raise e => Raise e
  end.

(** ** Python string operations *)

Module PyStr.

(** Python truthiness of a [str]: [bool(s)]. *)
Definition truthy (s : string) : bool :=
  match s with
  | "" => false
  | String _ _ => true
  end.

Definition code (c : ascii) : N := N_of_ascii c.

Definition in_range (lo hi : N) (c : ascii) : bool :=
  ((lo <=? code c) && (code c <=? hi))%N.

(** [c in s] for a single character [c]. *)
Fixpoint mem (c : ascii) (s : string) : bool :=
  match s with
  | "" => false
  | String d s' => if Ascii.eqb c d then true else mem c s'
  end.

(** [all(p(c) for c in s)]. *)
Fixpoint all (p : ascii -> bool) (s : string) : bool :=
  match s with
  | "" => true
  | String c s' => p c && all p s'
  end.

(** [s.find(c)]: [None] stands for Python's -1. *)
Fixpoint find (c : ascii) (s : string) : option nat :=
  match s with
  | "" => None
  | String d s' => if Ascii.eqb c d then Some 0 else S <$> find c s'
  end.

(** [s.find(c, start)]. *)
Fixpoint find_from (c : ascii) (start : nat) (s : string) : option nat :=
  match start, s with
  | 0, _ => find c s
  | S k, "" => None
  | S k, String _ s' => S <$> find_from c k s'
  end.

(** [s.rfind(c)]. *)
Fixpoint rfind (c : ascii) (s : string) : option nat :=
  match s with
  | "" => None
  | String d s' =>
      match rfind c s' with
      | Some i => Some (S i)
      | None => if Ascii.eqb c d then Some 0 else None
      end
  end.

(** [s[:n]] and [s[n:]] for [n >= 0]. *)
Fixpoint slice_to (n : nat) (s : string) : string :=
  match n, s with
  | 0, _ => ""
  | S _, "" => ""
  | S k, String c s' => String c (slice_to k s')
  end.

Fixpoint slice_from (n : nat) (s : string) : string :=
  match n, s with
  | 0, _ => s
  | S _, "" => ""
  | S k, String _ s' => slice_from k s'
  end.

(** [s[a:b]]. *)
Definition slice (a b : nat) (s : string) : string :=
  slice_from a (slice_to b s).

(** [s.startswith(p)]. *)
Fixpoint startswith (p s : string) : bool :=
  match p, s with
  | "", _ => true
  | String _ _, "" => false
  | String a p', String b s' => Ascii.eqb a b && startswith p' s'
  end.

(** [s.endswith(p)]: the last [len(p)] characters of [s] are [p]. *)
Definition endswith (p s : string) : bool :=
  (String.length p <=? String.length s) &&
  String.eqb (slice_from (String.length s - String.length p) s) p.

(** [sub in s] for a substring [sub]. *)
Fixpoint contains (sub s : string) : bool :=
  startswith sub s ||
  match s with
  | "" => false
  | String _ s' => contains sub s'
  end.

(** [s.lstrip(chars)], with [chars] given by its characteristic function. *)
Fixpoint lstrip (p : ascii -> bool) (s : string) : string :=
  match s with
  | "" => ""
  | String c s' => if p c then lstrip p s' else s
  end.

(** [s.rstrip(chars)]. *)
Fixpoint rstrip (p : ascii -> bool) (s : string) : string :=
  match s with
  | "" => ""
  | String c s' =>
      match rstrip p s' with
      | "" => if p c then "" else String c ""
      | r => String c r
      end
  end.

(** [str.isspace] on one character: the Unicode white space below 256. *)
Definition isspace (c : ascii) : bool :=
  in_range 9 13 c || in_range 28 32 c ||
  (code c =? 133)%N || (code c =? 160)%N.

(** [s.strip()]. *)
Definition strip (s : string) : string := rstrip isspace (lstrip isspace s).

(** [s.replace(c, "")] for a single character [c]. *)
Fixpoint remove (c : ascii) (s : string) : string :=
  match s with
  | "" => ""
  | String d s' => if Ascii.eqb c d then remove c s' else String d (remove c s')
  end.

(** [c.isascii() and c.isalpha()]. *)
Definition is_ascii_alpha (c : ascii) : bool :=
  in_range 65 90 c || in_range 97 122 c.

(** [str.lower] on ASCII text (it is only applied to scheme names, which
    consist of ASCII letters, digits and [+-.]). *)
Definition lower_char (c : ascii) : ascii :=
  if in_range 65 90 c then ascii_of_N (code c + 32) else c.

Fixpoint lower (s : string) : string :=
  match s with
  | "" => ""
  | String c s' => String (lower_char c) (lower s')
  end.

(** [s.split(c, 1)] when [c in s]: the text before and after the first [c]. *)
Definition split_once (c : ascii) (s : string) : string * string :=
  match find c s with
  | Some i => (slice_to i s, slice_from (S i) s)
  | None => (s, "")
  end.

End PyStr.

(** ** urllib.parse

    [urlsplit] and [urlparse] as CPython 3.11 defines them, for [str]
    arguments and the default [scheme=''] and [allow_fragments=True]. *)

Module UrlParse.
Import PyStr.

Record ParseResult : Type := mkParse {
  scheme : string;
  netloc : string;
  path : string;
  params : string;
  query : string;
  fragment : string
}.

Definition uses_params : list string :=
  ["" ; "ftp" ; "hdl" ; "prospero" ; "http" ; "imap" ;
   "https" ; "shttp" ; "rtsp" ; "rtspu" ; "sip" ; "sips" ;
   "mms" ; "sftp" ; "tel"].

Definition scheme_chars : string :=
  "abcdefghijklmnopqrstuvwxyzABCDEFGHIJKLMNOPQRSTUVWXYZ0123456789+-.".

(** [_WHATWG_C0_CONTROL_OR_SPACE]: the characters 0x00 .. 0x20. *)
Definition c0_control_or_space (c : ascii) : bool := in_range 0 32 c.

(** [_UNSAFE_URL_BYTES_TO_REMOVE = ['\t', '\r', '\n']]. *)
Definition unsafe_url_bytes : list ascii := ["009" ; "013" ; "010"]%char.

(** [_splitnetloc(url, start)]. *)
Definition splitnetloc (url : string) (start : nat) : string * string :=
  let delim :=
    foldl (fun delim c =>
             match find_from c start url with
             | Some wdelim => Nat.min delim wdelim
             | None => delim
             end)
          (String.length url) ["/" ; "?" ; "#"]%char in
  (slice start delim url, slice_from delim url).

(** [_splitparams(url)], called only when [';' in url]. *)
Definition splitparams (url : string) : string * string :=
  if mem "/" url then
    match rfind "/" url with
    | Some k =>
        match find_from ";" k url with
        | Some i => (slice_to i url, slice_from (S i) url)
        | None => (url, "")
        end
    | None => (url, "")
    end
  else
    match find ";" url with
    | Some i => (slice_to i url, slice_from (S i) url)
    | None => (url, "")
    end.

Section Parse.

(** [_check_bracketed_netloc] validates a bracketed host with the
    [ipaddress] module; it is taken as a parameter: [true] when the check
    passes, [false] when it raises [ValueError].  ([_checknetloc] only
    rejects characters whose NFKC form contains one of [/?#@:]; no
    character below 256 has such a form.) *)
Variable check_bracketed_netloc : string -> bool.

(** The bracket checks of [urlsplit] on a network location. *)
Definition netloc_ok (nl : string) : bool :=
  if (mem "[" nl && negb (mem "]" nl)) || (mem "]" nl && negb (mem "[" nl))
  then false
  else if mem "[" nl && mem "]" nl then check_bracketed_netloc nl
  else true.

Definition split_scheme (url : string) : string * string :=
  match find ":" url, url with
  | Some (S _ as i), String c0 _ =>
      if is_ascii_alpha c0 && all (fun c => mem c scheme_chars) (slice_to i url)
      then (lower (slice_to i url), slice_from (S i) url)
      else ("", url)
  | _, _ => ("", url)
  end.

(** [urlsplit(url)] with the default [scheme=''], [allow_fragments=True];
    the result has [params] empty. *)
Definition urlsplit (url : string) : result ParseResult :=
  let url := lstrip c0_control_or_space url in
  let url := foldl (fun u b => remove b u) url unsafe_url_bytes in
  let '(scheme, url) := split_scheme url in
  '(netloc, url) ←
    (if String.eqb (slice_to 2 url) "//" then
       let '(netloc, url) := splitnetloc url 2 in
       if netloc_ok netloc then Ok (netloc, url) else Raise ValueError
     else Ok ("", url));
  let '(url, fragment) :=
    if mem "#" url then split_once "#" url else (url, "") in
  let '(url, query) :=
    if mem "?" url then split_once "?" url else (url, "") in
  Ok (mkParse scheme netloc url "" query fragment).

(** What [urlsplit] guarantees of the components it returns: a scheme is
    in lower case, made of scheme characters and starts with a letter; a
    network location holds no delimiter and no removed byte, and has
    passed the bracket checks. *)
Definition scheme_low (c : ascii) : bool :=
  mem c scheme_chars && Ascii.eqb (lower_char c) c.

Definition scheme_wf (sch : string) : Prop :=
  all scheme_low sch = true /\
  match sch with
  | "" => True
  | String c _ => is_ascii_alpha c = true
  end.

Definition clean (s : string) : Prop :=
  Forall (fun b => mem b s = false) unsafe_url_bytes.

Definition netloc_wf (nl : string) : Prop :=
  Forall (fun c => mem c nl = false) ["/" ; "?" ; "#"]%char /\
  clean nl /\ netloc_ok nl = true.

(** [urlparse(url)]. *)
Definition urlparse (url : string) : result ParseResult :=
  r ← urlsplit url;
  let '(url, params) :=
    if bool_decide (scheme r ∈ uses_params) && mem ";" (path r)
    then splitparams (path r)
    else (path r, "") in
  Ok (mkParse (scheme r) (netloc r) url params (query r) (fragment r)).

End Parse.
End UrlParse.

(** ** Regular expressions *)

Module Regex.
Import PyStr.

(** The fragment of Python's [re] syntax that the script uses.  [Group] is
    a capturing group [( ... )]; a non-capturing group [(?: ... )] is its
    body.  Quantifiers are greedy and backtrack. *)
Inductive re : Type :=
| Cls (p : ascii -> bool)      (* one character of a class *)
| Plus (p : ascii -> bool)     (* [class+] *)
| Cat (r1 r2 : re)             (* [r1 r2] *)
| Opt (r : re)                 (* [r?] *)
| Group (r : re).              (* [(r)] *)

(** [\w], [\s], [[^\s]] and [\d] on [str] patterns (Unicode classes,
    code points below 256). *)
Definition word (c : ascii) : bool :=
  in_range 48 57 c || in_range 65 90 c || (code c =? 95)%N ||
  in_range 97 122 c || (code c =? 170)%N || in_range 178 179 c ||
  (code c =? 181)%N || in_range 185 186 c || in_range 188 190 c ||
  in_range 192 214 c || in_range 216 246 c || in_range 248 255 c.

Definition space (c : ascii) : bool := isspace c.

Definition nonspace (c : ascii) : bool := negb (isspace c).

Definition digit (c : ascii) : bool := in_range 48 57 c.

Definition chr (a : ascii) : re := Cls (Ascii.eqb a).

(** A continuation receives the rest of the subject and the groups closed
    so far (most recent first). *)
Definition cont : Type := string -> list string -> option (list string).

(** [class+]: take as many characters as possible, then give them back one
    at a time while the continuation fails. *)
Fixpoint match_plus (p : ascii -> bool) (s : string)
    (k : string -> option (list string)) : option (list string) :=
  match s with
  | "" => None
  | String c s' =>
      if p c then
        match match_plus p s' k with
        | Some g => Some g
        | None => k s'
        end
      else None
  end.

Fixpoint match_re (r : re) (s : string) (groups : list string) (k : cont)
    : option (list string) :=
  match r with
  | Cls p =>
      match s with
      | "" => None
      | String c s' => if p c then k s' groups else None
      end
  | Plus p => match_plus p s (fun s' => k s' groups)
  | Cat r1 r2 => match_re r1 s groups (fun s' g' => match_re r2 s' g' k)
  | Opt r1 =>
      match match_re r1 s groups k with
      | Some g => Some g
      | None => k s groups
      end
  | Group r1 =>
      match_re r1 s groups
        (fun s' g' =>
           k s' (slice_to (String.length s - String.length s') s :: g'))
  end.

(** [re.match(r, s)]: anchored at the start of [s] only; the result is
    [match.groups()], or [None] when there is no match. *)
Definition re_match (r : re) (s : string) : option (list string) :=
  match_re r s [] (fun _ g => Some (rev g)).

(** [s] is empty or starts with a character outside the class [p]. *)
Definition stops (p : ascii -> bool) (s : string) : Prop :=
  match s with
  | "" => True
  | String c _ => p c = false
  end.

(** The pattern has no capturing group. *)
Fixpoint group_free (r : re) : bool :=
  match r with
  | Cls _ | Plus _ => true
  | Cat r1 r2 => group_free r1 && group_free r2
  | Opt r1 => group_free r1
  | Group _ => false
  end.

End Regex.

(** ** The script *)

Module Tool.
Import PyStr UrlParse Regex.

(** *** Run state, console and network *)

(** The outcome of one [requests.get]. *)
Inductive outcome : Type :=
| Response (text : string) (status_code : Z)
| SSLError
| RequestException.

(** What BeautifulSoup exposes of a parsed document to the script. *)
Record Soup : Type := mkSoup {
  (* [soup.title]: [None] without a title tag, else its [.string] *)
  soup_title : option (option string);
  (* [h1.text] for each [h1] of [soup.find_all("h1")] *)
  soup_h1 : list string;
  (* for each table of [soup.find_all("table")], for each row of
     [table.find_all("tr")], [col.get_text()] for each [td] of the row *)
  soup_tables : list (list (list string))
}.

(** An element of the list returned by [extract_urls]. *)
Record entry : Type := mkEntry {
  entry_pid : string;
  entry_method : string;
  entry_url : string
}.

(** Command-line arguments ([argparse] namespace). *)
Record Args : Type := mkArgs {
  arg_input : option string;
  arg_url : option string;
  arg_sleep : Z;
  arg_output : option string
}.

(** Console lines, file appends and sleeps, in the order they happen.
    Diagnostics printed by [debug] are not part of the trace. *)
Inductive event : Type :=
| Sleep (seconds : nat)
| Checking (url : string)
| NotVulnerable (status : Z + string)
| VulnerableNoUrls
| Found (pid method url : string)
| SaveLine (text file : string)
| VulnerableFound (n : nat)
| PrintHelp
| ProcessingSingle (url : string)
| InputNotFound (file : string)
| Loaded (n : nat) (file : string)
| NoUrls
| Processing (i n : nat)
| Refresh (j : nat)
| ClearLine
| Summary (checked vulnerable : nat) (not_vulnerable : Z)
| TotalUnique (n : nat)
| SavedTo (file : string).

(** [seen_urls] is the set created by [main] and mutated by
    [process_url]; [requests] counts the calls of [requests.get]. *)
Record state : Type := mkState {
  seen_urls : gset string;
  requests : nat
}.

(** Computations that may raise, mutate the run state and emit events. *)
Definition M (A : Type) : Type := state -> result A * state * list event.

#[global] Instance M_ret : MRet M := fun A a st => (Ok a, st, []).
#[global] Instance M_bind : MBind M := fun A B f m st =>
  match m st with
  | (Ok a, st1, ev1) => let '(r, st2, ev2) := f a st1 in (r, st2, ev1 ++ ev2)
  | (Raise e, st1, ev1) => (Raise e, st1, ev1)
  end.

Definition lift {A} (r : result A) : M A := fun st => (r, st, []).
Definition emit (e : event) : M unit := fun st => (Ok tt, st, [e]).
Definition pass : M unit := mret tt.

(** Python truthiness of an optional string ([None] or [""] is false). *)
Definition truthy_opt (o : option string) : bool :=
  match o with
  | Some s => truthy s
  | None => false
  end.

Section Script.

Variable check_bracketed_netloc : string -> bool.
(** The network: the outcome of the [n]-th [requests.get], for its target
    URL and [verify] flag. *)
Variable requests_get : nat -> string -> bool -> outcome.
(** [BeautifulSoup(html, "lxml")]. *)
Variable BeautifulSoup : string -> Soup.
(** The non-blank stripped lines of a file; [None] when it is missing or
    cannot be read. *)
Variable read_lines : string -> option (list string).

Abbreviation urlparse := (urlparse check_bracketed_netloc).

(** *** clean_url *)

Definition clean_url (url : string) : result string :=
  parsed ← urlparse url;
  '(url, parsed) ←
    (if negb (truthy (scheme parsed)) then
       let url := "http://" +:+ url in
       parsed ← urlparse url;
       Ok (url, parsed)
     else Ok (url, parsed));
  if negb (endswith "/server-status" (path parsed))
  then Ok (scheme parsed +:+ "://" +:+ netloc parsed +:+ "/server-status")
  else Ok url.

(** *** Requester.fetch *)

Definition get (target_url : string) (verify : bool) : M outcome :=
  fun st =>
    (Ok (requests_get (requests st) target_url verify),
     mkState (seen_urls st) (S (requests st)), []).

(** The body of the inner loop: [Some] is the value returned from [fetch],
    [None] means the loop goes on. *)
Definition fetch_scheme (url scheme : string)
    : M (option (string * option Z)) :=
  p ← lift (urlparse url);
  let target_url :=
    if truthy (UrlParse.scheme p) then url
    else scheme +:+ "://" +:+ netloc p +:+ path p in
  o ← get target_url true;
  match o with
  | Response text status_code => mret (Some (text, Some status_code))
  | SSLError =>
      o' ← get target_url false;
      match o' with
      | Response text status_code => mret (Some (text, Some status_code))
      | _ => mret None
      end
  | RequestException => mret None
  end.

Fixpoint fetch_schemes (url : string) (schemes : list string)
    : M (option (string * option Z)) :=
  match schemes with
  | [] => mret None
  | scheme :: schemes' =>
      r ← fetch_scheme url scheme;
      match r with
      | Some resp => mret (Some resp)
      | None => fetch_schemes url schemes'
      end
  end.

Fixpoint fetch_attempts (url : string) (schemes : list string)
    (max_retries : nat) (attempts : list nat) : M (string * option Z) :=
  match attempts with
  | [] => mret ("", None)
  | attempt :: attempts' =>
      r ← fetch_schemes url schemes;
      match r with
      | Some resp => mret resp
      | None =>
          (if attempt <? max_retries - 1 then emit (Sleep 1) else pass);;
          fetch_attempts url schemes max_retries attempts'
      end
  end.

Definition fetch (url : string) : M (string * option Z) :=
  p ← lift (urlparse url);
  let schemes :=
    if negb (truthy (scheme p)) then ["http" ; "https"] else [scheme p] in
  let max_retries := 3 in
  fetch_attempts url schemes max_retries (seq 0 max_retries).

(** *** Parser.is_valid *)

Definition is_valid (html : string) : result bool :=
  if negb (truthy html) then Ok false
  else
    let soup := BeautifulSoup html in
    title_indicator ←
      match soup_title soup with
      | None => Ok false
      | Some None => Raise TypeError      (* ["Apache Status" in None] *)
      | Some (Some s) => Ok (contains "Apache Status" s)
      end;
    let indicators :=
      [ title_indicator ;
        existsb (contains "Apache Server Status") (soup_h1 soup) ;
        contains "<h1>Apache Server Status for" html ;
        contains "<th>Srv</th><th>PID</th>" html ] in
    Ok (existsb id indicators).

(** *** Parser.extract_urls *)

(** [\s+HTTP/\d\.\d] *)
Definition http_version : re :=
  Cat (Plus space)
 (Cat (chr "H") (Cat (chr "T") (Cat (chr "T") (Cat (chr "P")
 (Cat (chr "/") (Cat (Cls digit) (Cat (chr ".") (Cls digit)))))))).

(** [(\w+)\s+([^\s]+)(?:\s+HTTP/\d\.\d)?] *)
Definition request_re : re :=
  Cat (Group (Plus word))
 (Cat (Plus space)
 (Cat (Group (Plus nonspace))
      (Opt http_version))).

(** The body of the loop over rows: the entry appended for the row, if
    any. *)
Definition extract_row (cols : list string) : option entry :=
  if length cols <? 15 then None
  else
    let pid := strip (nth 1 cols "") in
    let vhost := strip (nth 13 cols "") in
    let request_full := strip (nth 14 cols "") in
    match re_match request_re request_full with
    | Some [method ; request_uri] =>
        if truthy vhost && truthy request_uri
        then Some (mkEntry pid method ("http://" +:+ vhost +:+ request_uri))
        else None
    | _ => None
    end.

Definition extract_urls (html : string) : list entry :=
  let soup := BeautifulSoup html in
  match soup_tables soup with
  | [] => []
  | table :: _ => omap extract_row (drop 1 table)
  end.

(** *** save_line and process_url *)

Definition save_line (text : string) (output_file : option string) : M unit :=
  match output_file with
  | Some file => if truthy file then emit (SaveLine text file) else pass
  | None => pass
  end.

(** [status_code or 'None']. *)
Definition status_or_none (status_code : option Z) : Z + string :=
  match status_code with
  | Some z => if (z =? 0)%Z then inr "None" else inl z
  | None => inr "None"
  end.

Definition seen_add (url : string) : M unit :=
  fun st => (Ok tt, mkState ({[url]} ∪ seen_urls st) (requests st), []).

Definition seen_mem (url : string) : M bool :=
  fun st => (Ok (bool_decide (url ∈ seen_urls st)), st, []).

Fixpoint report_entries (entries : list entry) (output_file : option string)
    : M unit :=
  match entries with
  | [] => pass
  | entry :: entries' =>
      let url := entry_url entry in
      seen ← seen_mem url;
      (if negb seen then
         seen_add url;;
         emit (Found (entry_pid entry) (entry_method entry) url);;
         save_line url output_file
       else pass);;
      report_entries entries' output_file
  end.

Definition process_url (url : string) (output_file : option string) : M bool :=
  url ← lift (clean_url url);
  emit (Checking url);;
  '(html, status_code) ← fetch url;
  valid ← lift (is_valid html);
  if negb valid then
    emit (NotVulnerable (status_or_none status_code));;
    mret false
  else
    let entries := extract_urls html in
    (if bool_decide (entries = []) then emit VulnerableNoUrls else pass);;
    report_entries entries output_file;;
    (if bool_decide (entries = []) then pass
     else emit (VulnerableFound (length entries)));;
    mret true.

(** *** main *)

(** [for j in range(sleep, 0, -1)]: print the countdown and sleep. *)
Fixpoint countdown (j : nat) : M unit :=
  match j with
  | 0 => pass
  | S j' => emit (Refresh j);; emit (Sleep 1);; countdown j'
  end.

(** [for i, url in enumerate(urls, 1)], with [n = len(urls)]; the result
    is [vulnerable_count]. *)
Fixpoint main_loop (args : Args) (n : nat) (urls : list (nat * string))
    (vulnerable_count : nat) : M nat :=
  match urls with
  | [] => mret vulnerable_count
  | (i, url) :: urls' =>
      emit (Processing i n);;
      vulnerable ← process_url url (arg_output args);
      let vulnerable_count :=
        if (vulnerable : bool) then S vulnerable_count else vulnerable_count in
      (if truthy_opt (arg_url args) then
         countdown (Z.to_nat (arg_sleep args));;
         emit ClearLine
       else if i <? n then emit (Sleep 1)
       else pass);;
      main_loop args n urls' vulnerable_count
  end.

Definition enumerate (urls : list string) : list (nat * string) :=
  zip (seq 1 (length urls)) urls.

Definition seen_new : M unit :=
  fun st => (Ok tt, mkState ∅ (requests st), []).

Definition seen_size : M nat :=
  fun st => (Ok (size (seen_urls st)), st, []).

(** The statements of [main] after the list of targets is known to be
    non-empty. *)
Definition main_run (args : Args) (urls : list string) : M unit :=
  vulnerable_count ← main_loop args (length urls) (enumerate urls) 0;
  emit (Summary (length urls) vulnerable_count
                (Z.of_nat (length urls) - Z.of_nat vulnerable_count));;
  n ← seen_size;
  if negb (n =? 0) then
    emit (TotalUnique n);;
    (if truthy_opt (arg_output args)
     then emit (SavedTo (default "" (arg_output args)))
     else pass)
  else pass.

(** [main()], after the banner and [parse_args].  [targets] is the list
    [urls], or [None] where [main] returns early. *)
Definition main (args : Args) : M unit :=
  if negb (truthy_opt (arg_url args)) && negb (truthy_opt (arg_input args))
  then emit PrintHelp
  else
    seen_new;;
    targets ←
      (if truthy_opt (arg_url args) then
         let url := default "" (arg_url args) in
         emit (ProcessingSingle url);;
         mret (Some [url])
       else
         let input_file := default "" (arg_input args) in
         match read_lines input_file with
         | None => emit (InputNotFound input_file);; mret None
         | Some urls => emit (Loaded (length urls) input_file);; mret (Some urls)
         end);
    match targets with
    | None => pass
    | Some urls =>
        if bool_decide (urls = []) then emit NoUrls else main_run args urls
    end.

End Script.

(** *** Observations on traces *)

(** The URLs printed by [process_url] as newly found. *)
Definition found_urls (evs : list event) : list string :=
  omap (fun e => match e with Found _ _ url => Some url | _ => None end) evs.

(** The lines appended to the output file. *)
Definition saved_lines (evs : list event) : list string :=
  omap (fun e => match e with SaveLine text _ => Some text | _ => None end) evs.

(** The targets handed to [process_url] by the loop of [main]. *)
Definition processed (evs : list event) : list nat :=
  omap (fun e => match e with Processing i _ => Some i | _ => None end) evs.

(** Events other than the announcement of a URL, the line saved for it
    and the start of a target. *)
Definition plain (e : event) : bool :=
  match e with
  | Found _ _ _ | SaveLine _ _ | Processing _ _ => false
  | _ => true
  end.

(** *** Sample data *)

(** A data row of a status table: Srv, PID, Acc, M, CPU, SS, Req, Dur,
    Conn, Child, Slot, Client, Protocol, VHost, Request. *)
Definition sample_row : list string :=
  ["0-0" ; "123" ; "0/1/1" ; "W" ; "0.00" ; "0" ; "0" ; "0.0" ; "0.00" ;
   "0.00" ; "10.0.0.1" ; "http/1.1" ; "" ; "example.com" ;
   "GET /foo HTTP/1.1"].

(** A status page with one worker, served for every target. *)
Definition sample_soup : Soup :=
  mkSoup (Some (Some "Apache Status")) ["Apache Server Status for example.com"]
         [[ ["Srv" ; "PID"] ; sample_row ]].

Definition sample_net (n : nat) (target_url : string) (verify : bool)
    : outcome :=
  Response "<html><title>Apache Status</title></html>" 200.

(** The three components of a finished computation. *)
Definition value_of {A} (o : result A * state * list event) : result A := o.1.1.
Definition state_of {A} (o : result A * state * list event) : state := o.1.2.
Definition events_of {A} (o : result A * state * list event) : list event := o.2.

(** Every request fails: no [requests.get] yields a response. *)
Definition always_fails (requests_get : nat -> string -> bool -> outcome) : Prop :=
  forall n target_url verify text status_code,
    requests_get n target_url verify <> Response text status_code.

(** *** Properties of whole computations *)

(** A relation between the state before, the events emitted and the state
    after that holds of doing nothing and is kept by sequencing. *)
Record composable (P : state -> list event -> state -> Prop) : Prop := {
  comp_nil : forall st, P st [] st;
  comp_app : forall st ev1 st1 ev2 st2,
    P st ev1 st1 -> P st1 ev2 st2 -> P st (ev1 ++ ev2) st2
}.

(** [P] holds of every run of [m], whether it returns or raises. *)
Definition always {A} (P : state -> list event -> state -> Prop) (m : M A)
    : Prop :=
  forall st, P st (events_of (m st)) (state_of (m st)).

(** The URLs of [l] are distinct, were not in [seen_urls] before and are in
    it afterwards. *)
Definition fresh_in (st st' : state) (l : list string) : Prop :=
  NoDup l /\ forall u, u ∈ l -> u ∈ seen_urls st' /\ u ∉ seen_urls st.

(** [seen_urls] only grows, and what is announced or saved is new to it. *)
Definition seen_grows (st : state) (evs : list event) (st' : state) : Prop :=
  seen_urls st ⊆ seen_urls st' /\
  fresh_in st st' (found_urls evs) /\ fresh_in st st' (saved_lines evs).

(** No target is started: the loop of [main] alone prints [Processing]. *)
Definition no_target (_ : state) (evs : list event) (_ : state) : Prop :=
  processed evs = [].

(** *** Further observations *)

(** The URL requested by [fetch] for one candidate scheme: [target_url]. *)
Definition target_url_of (p : ParseResult) (url scheme : string) : string :=
  if truthy (UrlParse.scheme p) then url
  else scheme +:+ "://" +:+ netloc p +:+ path p.

(** The end-of-run lines of [main]. *)
Definition summaries (evs : list event) : list (nat * nat * Z) :=
  omap (fun e => match e with Summary c v nv => Some (c, v, nv) | _ => None end)
       evs.

Definition totals (evs : list event) : list nat :=
  omap (fun e => match e with TotalUnique n => Some n | _ => None end) evs.

(** The events of the loop of [main] and of what it calls. *)
Definition in_loop (e : event) : bool :=
  match e with
  | Sleep _ | Checking _ | NotVulnerable _ | VulnerableNoUrls | Found _ _ _
  | SaveLine _ _ | VulnerableFound _ | Processing _ _ | Refresh _
  | ClearLine => true
  | _ => false
  end.

(** Every event is one of the loop. *)
Definition loop_only (_ : state) (evs : list event) (_ : state) : Prop :=
  Forall (fun e => in_loop e = true) evs.


(** [seen_urls] grows by exactly the URLs announced. *)
Definition seen_exact (st : state) (evs : list event) (st' : state) : Prop :=
  seen_urls st' = seen_urls st ∪ list_to_set (found_urls evs).

(** [requests.get] is called between [lo] and [hi] times and nothing else
    changes. *)
Definition requests_between (lo hi : nat) (st st' : state) : Prop :=
  seen_urls st' = seen_urls st /\
  requests st + lo <= requests st' <= requests st + hi.

(** The lines [main] prints after its loop, for [n] targets of which
    [v] were vulnerable, in the state [st] the loop ended in. *)
Definition footer (args : Args) (n v : nat) (st : state) : list event :=
  Summary n v (Z.of_nat n - Z.of_nat v) ::
  (if negb (size (seen_urls st) =? 0) then
     TotalUnique (size (seen_urls st)) ::
     (if truthy_opt (arg_output args)
      then [SavedTo (default "" (arg_output args))] else [])
   else []).

End Tool.

(** * Facts *)

(** ** Strings *)

Module PyStrFacts.
Import PyStr.

#[local] Arguments String.append !_ _ /.

Lemma length_app s t :
  String.length (s +:+ t) = String.length s + String.length t.
Proof. induction s as [|a s IH]; simpl; [done | by rewrite IH]. Qed.

Lemma mem_app c s t : mem c (s +:+ t) = mem c s || mem c t.
Proof.
  induction s as [|a s IH]; simpl; [done|].
  destruct (Ascii.eqb c a); [done | apply IH].
Qed.

Lemma find_None c s : find c s = None <-> mem c s = false.
Proof.
  induction s as [|a s IH]; simpl; [done|].
  destruct (Ascii.eqb c a); [done|].
  destruct (find c s); simpl.
  - split; [done|]. intros H. by apply IH in H.
  - split; [|done]. intros _. by apply IH.
Qed.

Lemma find_app_fresh c s t :
  mem c s = false -> find c (s +:+ String c t) = Some (String.length s).
Proof.
  induction s as [|a s IH]; simpl.
  - by rewrite Ascii.eqb_refl.
  - destruct (Ascii.eqb c a); [done|]. intros H. by rewrite IH.
Qed.

Lemma find_from_app_fresh c k pre s t :
  String.length pre = k -> mem c s = false ->
  find_from c k (pre +:+ s +:+ String c t) = Some (k + String.length s).
Proof.
  revert k. induction pre as [|a pre IH]; intros k Hk Hs; simpl in *.
  - subst k. simpl. by apply find_app_fresh.
  - subst k. simpl. by rewrite (IH (String.length pre)).
Qed.

Lemma find_from_None c k s : mem c s = false -> find_from c k s = None.
Proof.
  revert k. induction s as [|a s IH]; intros [|k]; simpl; try done.
  - destruct (Ascii.eqb c a); [done|]. intros H.
    apply find_None in H. by rewrite H.
  - destruct (Ascii.eqb c a); [done|]. intros H. by rewrite IH.
Qed.

Lemma slice_to_app s t : slice_to (String.length s) (s +:+ t) = s.
Proof. induction s as [|a s IH]; simpl; [by destruct t | by rewrite IH]. Qed.

Lemma slice_from_app s t : slice_from (String.length s) (s +:+ t) = t.
Proof. induction s as [|a s IH]; simpl; [done | apply IH]. Qed.

Lemma slice_from_S_app s c t :
  slice_from (S (String.length s)) (s +:+ String c t) = t.
Proof. induction s as [|a s IH]; simpl; [done | apply IH]. Qed.

Lemma mem_slice_to c n s : mem c (slice_to n s) = true -> mem c s = true.
Proof.
  revert n. induction s as [|a s IH]; intros [|n]; simpl; try done.
  destruct (Ascii.eqb c a); [done | apply IH].
Qed.

Lemma mem_slice_from c n s : mem c (slice_from n s) = true -> mem c s = true.
Proof.
  revert n. induction s as [|a s IH]; intros [|n]; simpl; try done.
  intros H. apply IH in H. rewrite H. by destruct (Ascii.eqb c a).
Qed.

Lemma mem_slice_to_find c d s :
  mem c (slice_to d s) = true -> exists w, find c s = Some w /\ w < d.
Proof.
  revert d. induction s as [|a s IH]; intros [|d]; simpl; try done.
  destruct (Ascii.eqb c a).
  - intros _. exists 0. split; [done | lia].
  - intros H. destruct (IH _ H) as (w & -> & Hw). exists (S w).
    split; [done | lia].
Qed.

(** A character found in [s[a:d]] occurs in [s] at or after [a], before [d]. *)
Lemma mem_slice_find c a d s :
  mem c (slice a d s) = true -> exists w, find_from c a s = Some w /\ w < d.
Proof.
  unfold slice. revert a d. induction s as [|x s IH]; intros a d.
  - destruct a, d; simpl; done.
  - destruct a as [|a].
    + simpl slice_from. apply mem_slice_to_find.
    + destruct d as [|d]; [done|]. simpl. intros H.
      destruct (IH _ _ H) as (w & -> & Hw). exists (S w). split; [done | lia].
Qed.

Lemma mem_slice c a d s : mem c (slice a d s) = true -> mem c s = true.
Proof. unfold slice. intros H. by eapply mem_slice_to, mem_slice_from. Qed.

Lemma remove_app c s t : remove c (s +:+ t) = remove c s +:+ remove c t.
Proof.
  induction s as [|a s IH]; simpl; [done|].
  destruct (Ascii.eqb c a); simpl; by rewrite IH.
Qed.

Lemma remove_id c s : mem c s = false -> remove c s = s.
Proof.
  induction s as [|a s IH]; simpl; [done|].
  destruct (Ascii.eqb c a); [done|]. intros H. by rewrite IH.
Qed.

Lemma mem_remove_same c s : mem c (remove c s) = false.
Proof.
  induction s as [|a s IH]; simpl; [done|].
  destruct (Ascii.eqb c a) eqn:E; [done|]. simpl. by rewrite E.
Qed.

Lemma mem_remove b c s : mem b s = false -> mem b (remove c s) = false.
Proof.
  induction s as [|a s IH]; simpl; [done|].
  destruct (Ascii.eqb b a) eqn:E; [done|]. intros H.
  destruct (Ascii.eqb c a); simpl; rewrite ?E; auto.
Qed.

Lemma all_impl (p q : ascii -> bool) s :
  (forall c, p c = true -> q c = true) -> all p s = true -> all q s = true.
Proof.
  intros Hpq. induction s as [|a s IH]; simpl; [done|].
  intros [Ha Hs]%andb_true_iff. by rewrite (Hpq _ Ha), IH.
Qed.

Lemma all_not_mem p c s : p c = false -> all p s = true -> mem c s = false.
Proof.
  intros Hc. induction s as [|a s IH]; simpl; [done|].
  intros [Ha Hs]%andb_true_iff.
  destruct (Ascii.eqb c a) eqn:E; [|auto].
  apply Ascii.eqb_eq in E. congruence.
Qed.

Lemma all_lower (p q : ascii -> bool) s :
  (forall c, p c = true -> q (lower_char c) = true) ->
  all p s = true -> all q (lower s) = true.
Proof.
  intros Hpq. induction s as [|a s IH]; simpl; [done|].
  intros [Ha Hs]%andb_true_iff. by rewrite (Hpq _ Ha), IH.
Qed.

Lemma lower_id s :
  all (fun c => Ascii.eqb (lower_char c) c) s = true -> lower s = s.
Proof.
  induction s as [|a s IH]; simpl; [done|].
  intros [Ha%Ascii.eqb_eq Hs]%andb_true_iff. by rewrite Ha, IH.
Qed.

End PyStrFacts.

(** ** urlsplit and urlparse *)

Module UrlParseFacts.
Import PyStr UrlParse PyStrFacts.

#[local] Arguments String.append !_ _ /.

Ltac each_char c := destruct c as [[] [] [] [] [] [] [] []].

Lemma scheme_low_lower c :
  mem c scheme_chars = true -> scheme_low (lower_char c) = true.
Proof. each_char c; vm_compute; done. Qed.

Lemma scheme_low_chars c : scheme_low c = true -> mem c scheme_chars = true.
Proof. unfold scheme_low. by intros [? _]%andb_true_iff. Qed.

Lemma scheme_low_fix c :
  scheme_low c = true -> Ascii.eqb (lower_char c) c = true.
Proof. unfold scheme_low. by intros [_ ?]%andb_true_iff. Qed.

Lemma alpha_lower c :
  is_ascii_alpha c = true -> is_ascii_alpha (lower_char c) = true.
Proof. each_char c; vm_compute; done. Qed.

Lemma alpha_not_c0 c :
  is_ascii_alpha c = true -> c0_control_or_space c = false.
Proof. each_char c; vm_compute; done. Qed.

Lemma scheme_wf_nil : scheme_wf "".
Proof. done. Qed.

Lemma scheme_wf_no c sch :
  scheme_low c = false -> scheme_wf sch -> mem c sch = false.
Proof. intros Hc [Hall _]. by eapply all_not_mem. Qed.

Lemma scheme_wf_clean sch : scheme_wf sch -> clean sch.
Proof.
  intros H. unfold clean, unsafe_url_bytes.
  repeat constructor; by apply scheme_wf_no.
Qed.

Lemma clean_app s t : clean s -> clean t -> clean (s +:+ t).
Proof.
  unfold clean. rewrite !Forall_forall. intros Hs Ht b Hb.
  by rewrite mem_app, Hs, Ht.
Qed.

Lemma remove_unsafe_clean s :
  clean s -> foldl (fun u b => remove b u) s unsafe_url_bytes = s.
Proof.
  unfold clean, unsafe_url_bytes. intros H.
  inversion H as [|? ? H1 H']; subst. inversion H' as [|? ? H2 H'']; subst.
  inversion H'' as [|? ? H3 _]; subst. simpl.
  rewrite (remove_id _ s) by done. rewrite (remove_id _ s) by done.
  by apply remove_id.
Qed.

Lemma remove_unsafe_is_clean s :
  clean (foldl (fun u b => remove b u) s unsafe_url_bytes).
Proof.
  unfold clean, unsafe_url_bytes. simpl. repeat constructor.
  - by do 2 apply mem_remove; apply mem_remove_same.
  - apply mem_remove. apply mem_remove_same.
  - apply mem_remove_same.
Qed.

Lemma clean_slice_from n s : clean s -> clean (slice_from n s).
Proof.
  unfold clean. rewrite !Forall_forall. intros H b Hb.
  destruct (mem b (slice_from n s)) eqn:E; [|done].
  apply mem_slice_from in E. by rewrite H in E.
Qed.

Lemma clean_slice a d s : clean s -> clean (slice a d s).
Proof.
  unfold clean. rewrite !Forall_forall. intros H b Hb.
  destruct (mem b (slice a d s)) eqn:E; [|done].
  apply mem_slice in E. by rewrite H in E.
Qed.

(** *** The components returned *)

Lemma split_scheme_wf url sch rest :
  split_scheme url = (sch, rest) ->
  scheme_wf sch /\ (clean url -> clean rest).
Proof.
  unfold split_scheme.
  destruct (find ":" url) as [[|i]|] eqn:Hf; destruct url as [|c0 url'];
    try (intros [= <- <-]; split; [apply scheme_wf_nil | done]).
  destruct (is_ascii_alpha c0 && _) eqn:Hc;
    [|intros [= <- <-]; split; [apply scheme_wf_nil | done]].
  apply andb_true_iff in Hc as [Ha Hall].
  intros [= <- <-]. split.
  - split.
    + apply (all_lower (fun c => mem c scheme_chars) scheme_low
               (slice_to (S i) (String c0 url'))); [|exact Hall].
      intros c Hc. by apply scheme_low_lower.
    + simpl. by apply alpha_lower.
  - apply (clean_slice_from (S (S i))).
Qed.

Lemma splitnetloc_no_delim url c :
  c ∈ ["/" ; "?" ; "#"]%char -> mem c (splitnetloc url 2).1 = false.
Proof.
  unfold splitnetloc. cbn [foldl fst]. intros Hc.
  destruct (mem c (slice _ _ _)) eqn:E; [|done].
  apply mem_slice_find in E. destruct E as (w & Hw & Hlt). exfalso.
  rewrite !elem_of_cons in Hc.
  destruct Hc as [->|[->|[->|Hc]]]; [| | |by apply elem_of_nil in Hc];
    rewrite Hw in Hlt;
    repeat match type of Hlt with
           | context [find_from ?a 2 url] => destruct (find_from a 2 url)
           end; lia.
Qed.

Lemma splitnetloc_clean url : clean url -> clean (splitnetloc url 2).1.
Proof. apply clean_slice. Qed.

Section Facts.
Variable chk : string -> bool.

Lemma netloc_wf_nil : netloc_wf chk "".
Proof. repeat split; repeat constructor. Qed.

Lemma urlsplit_inv url p :
  urlsplit chk url = Ok p -> scheme_wf (scheme p) /\ netloc_wf chk (netloc p).
Proof.
  unfold urlsplit.
  pose proof (remove_unsafe_is_clean (lstrip c0_control_or_space url)) as Hcl.
  destruct (split_scheme _) as [sch rest] eqn:Hs.
  apply split_scheme_wf in Hs as [Hwf Hrest]. specialize (Hrest Hcl).
  destruct (String.eqb (slice_to 2 rest) "//").
  - pose proof (splitnetloc_no_delim rest) as Hd.
    pose proof (splitnetloc_clean rest Hrest) as Hc.
    destruct (splitnetloc rest 2) as [nl rest'].
    destruct (netloc_ok chk nl) eqn:Hok; [|done]. simpl in *.
    assert (netloc_wf chk nl) as Hnl.
    { split; [|done]. repeat constructor; apply Hd; set_solver. }
    repeat match goal with
           | |- context [if ?b then _ else _] => destruct b
           | |- context [let '(_, _) := ?x in _] => destruct x
           end;
      by intros [= <-].
  - simpl.
    repeat match goal with
           | |- context [if ?b then _ else _] => destruct b
           | |- context [let '(_, _) := ?x in _] => destruct x
           end;
      intros [= <-]; simpl; (split; [done | apply netloc_wf_nil]).
Qed.

Lemma urlparse_inv url p :
  urlparse chk url = Ok p -> scheme_wf (scheme p) /\ netloc_wf chk (netloc p).
Proof.
  unfold urlparse. destruct (urlsplit chk url) as [r|] eqn:Hr; [|done].
  apply urlsplit_inv in Hr. simpl.
  destruct (if _ && _ then _ else _). by intros [= <-].
Qed.

(** *** Parsing a URL that starts with a well-formed scheme *)

Lemma lstrip_wf sch t :
  scheme_wf sch -> sch <> "" ->
  lstrip c0_control_or_space (sch +:+ t) = sch +:+ t.
Proof.
  intros [_ Ha] Hne. destruct sch as [|c sch]; [done|]. simpl.
  by rewrite (alpha_not_c0 _ Ha).
Qed.

Lemma split_scheme_app sch rest :
  scheme_wf sch -> sch <> "" ->
  split_scheme (sch +:+ String ":" rest) = (sch, rest).
Proof.
  intros Hwf Hne. unfold split_scheme.
  rewrite find_app_fresh by (by apply scheme_wf_no).
  destruct Hwf as [Hall Ha]. destruct sch as [|c sch]; [done|].
  cbn [String.length String.append].
  change (String c (sch +:+ String ":" rest))
    with (String c sch +:+ String ":" rest).
  change (S (String.length sch)) with (String.length (String c sch)).
  rewrite slice_to_app, slice_from_S_app, Ha.
  rewrite (all_impl scheme_low _ _ scheme_low_chars Hall).
  rewrite (lower_id _ (all_impl scheme_low _ _ scheme_low_fix Hall)).
  done.
Qed.

Lemma urlsplit_scheme sch rest p :
  scheme_wf sch -> sch <> "" ->
  urlsplit chk (sch +:+ String ":" rest) = Ok p -> scheme p = sch.
Proof.
  intros Hwf Hne. unfold urlsplit. rewrite lstrip_wf by done.
  change (sch +:+ String ":" rest) with (sch +:+ ":" +:+ rest).
  assert (exists rest',
    foldl (fun u b => remove b u) (sch +:+ ":" +:+ rest) unsafe_url_bytes
    = sch +:+ String ":" rest') as [rest' ->].
  { pose proof (scheme_wf_clean _ Hwf) as Hcl.
    unfold clean, unsafe_url_bytes in Hcl.
    inversion Hcl as [|? ? H1 Hcl']; subst.
    inversion Hcl' as [|? ? H2 Hcl'']; subst.
    inversion Hcl'' as [|? ? H3 _]; subst.
    unfold unsafe_url_bytes. cbn [foldl].
    rewrite !remove_app. rewrite !(remove_id _ sch) by done.
    eexists. reflexivity. }
  rewrite split_scheme_app by done.
  destruct (String.eqb (slice_to 2 rest') "//").
  - destruct (splitnetloc rest' 2) as [nl rest''].
    destruct (netloc_ok chk nl); [|done]. simpl.
    repeat match goal with
           | |- context [if ?b then _ else _] => destruct b
           | |- context [let '(_, _) := ?x in _] => destruct x
           end; by intros [= <-].
  - simpl.
    repeat match goal with
           | |- context [if ?b then _ else _] => destruct b
           | |- context [let '(_, _) := ?x in _] => destruct x
           end; by intros [= <-].
Qed.

Lemma splitnetloc_status nl :
  netloc_wf chk nl ->
  splitnetloc ("//" +:+ nl +:+ "/server-status") 2 = (nl, "/server-status").
Proof.
  intros (Hd & _ & _).
  inversion Hd as [|? ? H1 Hd']; subst. inversion Hd' as [|? ? H2 Hd'']; subst.
  inversion Hd'' as [|? ? H3 _]; subst.
  unfold splitnetloc. cbn [foldl].
  rewrite (find_from_app_fresh "/" 2 "//" nl "server-status") by done.
  rewrite (find_from_None "?"), (find_from_None "#")
    by (rewrite !mem_app; by rewrite ?H2, ?H3).
  rewrite !length_app. cbn [String.length].
  replace (Nat.min _ _) with (2 + String.length nl) by lia.
  unfold slice. simpl. by rewrite slice_to_app, slice_from_app.
Qed.

Lemma urlsplit_status sch nl :
  scheme_wf sch -> sch <> "" -> netloc_wf chk nl ->
  urlsplit chk (sch +:+ "://" +:+ nl +:+ "/server-status")
  = Ok (mkParse sch nl "/server-status" "" "" "").
Proof.
  intros Hwf Hne Hnl. unfold urlsplit. rewrite lstrip_wf by done.
  rewrite remove_unsafe_clean.
  2:{ apply clean_app; [by apply scheme_wf_clean|].
      apply clean_app; [repeat constructor|].
      apply clean_app; [apply Hnl | repeat constructor]. }
  change (sch +:+ "://" +:+ nl +:+ "/server-status")
    with (sch +:+ String ":" ("//" +:+ nl +:+ "/server-status")).
  rewrite split_scheme_app by done.
  change (slice_to 2 ("//" +:+ nl +:+ "/server-status")) with "//".
  cbn [String.eqb Ascii.eqb Bool.eqb]. simpl String.eqb.
  rewrite splitnetloc_status by done.
  destruct Hnl as (_ & _ & ->). reflexivity.
Qed.

Lemma urlparse_status sch nl :
  scheme_wf sch -> sch <> "" -> netloc_wf chk nl ->
  urlparse chk (sch +:+ "://" +:+ nl +:+ "/server-status")
  = Ok (mkParse sch nl "/server-status" "" "" "").
Proof.
  intros Hwf Hne Hnl. unfold urlparse. rewrite urlsplit_status by done.
  simpl. by rewrite andb_false_r.
Qed.

Lemma urlparse_scheme sch rest p :
  scheme_wf sch -> sch <> "" ->
  urlparse chk (sch +:+ String ":" rest) = Ok p -> scheme p = sch.
Proof.
  intros Hwf Hne. unfold urlparse.
  destruct (urlsplit chk _) as [r|] eqn:Hr; [|done].
  apply urlsplit_scheme in Hr; [|done..]. simpl.
  destruct (if _ && _ then _ else _). by intros [= <-].
Qed.

End Facts.
End UrlParseFacts.

(** ** clean_url *)

Module NormalizerFacts.
Import PyStr UrlParse Tool PyStrFacts UrlParseFacts.

#[local] Arguments String.append !_ _ /.

Section Facts.
Variable chk : string -> bool.

Lemma scheme_wf_http : scheme_wf "http".
Proof. split; reflexivity. Qed.

(** After the first two statements of [clean_url], [parsed] is the parse
    of [url] and it has a scheme. *)
Lemma with_scheme x u q :
  urlparse chk x = Ok q ->
  (if negb (truthy (scheme q)) then
     parsed ← urlparse chk ("http://" +:+ x); Ok ("http://" +:+ x, parsed)
   else Ok (x, q)) = Ok u ->
  urlparse chk u.1 = Ok u.2 /\ truthy (scheme u.2) = true.
Proof.
  intros Hq. destruct (truthy (scheme q)) eqn:Ht; cbn [negb].
  - by intros [= <-].
  - destruct (urlparse chk ("http://" +:+ x)) as [q'|] eqn:Hq';
      cbn [mbind result_bind]; [|done].
    intros [= <-]. split; [done|]. cbn [fst snd].
    change ("http://" +:+ x) with ("http" +:+ String ":" ("//" +:+ x)) in Hq'.
    apply urlparse_scheme in Hq'; [|apply scheme_wf_http | done].
    by rewrite Hq'.
Qed.

(** The URL returned by [clean_url] parses, has a scheme, and its path
    ends with [/server-status]. *)
Lemma clean_url_parse x u :
  clean_url chk x = Ok u ->
  exists q, urlparse chk u = Ok q /\ truthy (scheme q) = true /\
            endswith "/server-status" (path q) = true.
Proof.
  unfold clean_url. destruct (urlparse chk x) as [q|] eqn:Hq; [|done].
  cbn [mbind result_bind].
  destruct (if negb (truthy (scheme q)) then _ else _) as [[u' q']|] eqn:Hw;
    [|done].
  apply (with_scheme _ _ _ Hq) in Hw as [Hp Ht]. simpl in Hp, Ht.
  cbn [mbind result_bind].
  destruct (endswith "/server-status" (path q')) eqn:He; cbn [negb].
  - intros [= <-]. by exists q'.
  - intros [= <-]. apply urlparse_inv in Hp as [Hwf Hnl].
    eexists. split; [apply urlparse_status; try done|].
    + by destruct (scheme q').
    + split; [exact Ht | reflexivity].
Qed.

(** A URL with a scheme and a path that ends with [/server-status] is
    returned unchanged. *)
Lemma clean_url_fixed u q :
  urlparse chk u = Ok q -> truthy (scheme q) = true ->
  endswith "/server-status" (path q) = true ->
  clean_url chk u = Ok u.
Proof.
  intros Hq Ht He. unfold clean_url. rewrite Hq. cbn [mbind result_bind].
  rewrite Ht. simpl. by rewrite He.
Qed.

End Facts.

(** How [clean_url] treats a bare host, a host with a port (which
    [urlsplit] reads as a scheme), and an unbalanced bracket. *)
Example clean_url_host chk :
  clean_url chk "example.com" = Ok "http://example.com/server-status".
Proof. reflexivity. Qed.

Example clean_url_port chk :
  clean_url chk "example.com:8080" = Ok "example.com:///server-status".
Proof. reflexivity. Qed.

Example clean_url_bracket chk : clean_url chk "[" = Raise ValueError.
Proof. reflexivity. Qed.

Example urlparse_components chk :
  urlparse chk "HTTPS://a.b/x;y?q#f" = Ok (mkParse "https" "a.b" "/x" "y" "q" "f").
Proof. reflexivity. Qed.

(** C10. [clean_url] returns on the empty string: [clean_url("")] is
    ["http:///server-status"], a URL with an empty host; no exception is
    raised. *)
Theorem clean_url_empty chk : clean_url chk "" = Ok "http:///server-status".
Proof. reflexivity. Qed.

(** C2, as stated, fails: a target whose path already ends with
    [/server-status] below another segment is returned unchanged, so the
    path of the result is [/app/server-status], not [/server-status]. *)
Lemma clean_url_path_not_exact :
  "http://example.com/app/server-status" <> "" /\
  forall chk,
    clean_url chk "http://example.com/app/server-status"
    = Ok "http://example.com/app/server-status" /\
    urlparse chk "http://example.com/app/server-status"
    = Ok (mkParse "http" "example.com" "/app/server-status" "" "" "").
Proof. split; [done|]. intros chk. split; reflexivity. Qed.

(** C2, amended. Whenever [clean_url] returns a URL, the path of that URL
    ends with [/server-status]; it is exactly [/server-status] unless the
    target (with [http://] put in front when it has no scheme) is returned
    as it is, its path ending with [/server-status] already. *)
Theorem clean_url_path_ends chk x u :
  clean_url chk x = Ok u ->
  exists p, urlparse chk u = Ok p /\
            endswith "/server-status" (path p) = true /\
            (path p = "/server-status" \/ u = x \/ u = "http://" +:+ x).
Proof.
  unfold clean_url. destruct (urlparse chk x) as [q|] eqn:Hq; [|done].
  cbn [mbind result_bind].
  destruct (if negb (truthy (scheme q)) then _ else _) as [[u' q']|] eqn:Hw;
    [|done].
  assert (u' = x \/ u' = "http://" +:+ x) as Hu'.
  { destruct (negb (truthy (scheme q))).
    - destruct (urlparse chk ("http://" +:+ x)); [|done].
      injection Hw as <- _. by right.
    - injection Hw as <- _. by left. }
  apply (with_scheme _ _ _ _ Hq) in Hw as [Hp Ht]. cbn [fst snd] in Hp, Ht.
  cbn [mbind result_bind].
  destruct (endswith "/server-status" (path q')) eqn:He; cbn [negb].
  - intros [= <-]. exists q'. auto.
  - intros [= <-]. apply urlparse_inv in Hp as [Hwf Hnl].
    eexists. split; [apply urlparse_status; try done|].
    + by destruct (scheme q').
    + split; [reflexivity | by left].
Qed.

Lemma clean_url_path_ends_witness :
  exists p, urlparse (fun _ => true) "http://example.com/server-status" = Ok p /\
            endswith "/server-status" (path p) = true /\
            (path p = "/server-status" \/
             "http://example.com/server-status" = "example.com" \/
             "http://example.com/server-status" = "http://" +:+ "example.com").
Proof.
  apply (clean_url_path_ends (fun _ => true) "example.com"). reflexivity.
Defined.

(** C8. Normalization is idempotent: [clean_url] applied to its own result
    returns that result unchanged (and where [clean_url(x)] raises, so does
    the composition). *)
Theorem clean_url_idempotent chk x :
  (clean_url chk x ≫= clean_url chk) = clean_url chk x.
Proof.
  destruct (clean_url chk x) as [u|e] eqn:Hu; [|done].
  cbn [mbind result_bind].
  apply clean_url_parse in Hu as (q & Hq & Ht & He).
  by eapply clean_url_fixed.
Qed.

End NormalizerFacts.

(** ** The request-line pattern *)

Module RegexFacts.
Import PyStr Regex Tool PyStrFacts.

#[local] Arguments String.append !_ _ /.

Lemma match_plus_stops p s k : stops p s -> match_plus p s k = None.
Proof. destruct s as [|c s]; simpl; [done | by intros ->]. Qed.

(** A greedy [class+] consumes the longest run of the class when the
    continuation accepts what follows it. *)
Lemma match_plus_greedy p s t k g :
  s <> "" -> all p s = true -> stops p t -> k t = Some g ->
  match_plus p (s +:+ t) k = Some g.
Proof.
  intros Hne Hall Ht Hk. induction s as [|c s IH]; [done|].
  simpl in *. apply andb_true_iff in Hall as [-> Hs].
  destruct s as [|c' s].
  - simpl. by rewrite match_plus_stops.
  - by rewrite IH.
Qed.

(** A pattern without capturing groups leaves the groups as they are. *)
Lemma match_plus_const p s (k : string -> option (list string)) v :
  (forall s', k s' = None \/ k s' = Some v) ->
  match_plus p s k = None \/ match_plus p s k = Some v.
Proof.
  intros Hk. induction s as [|c s IH]; simpl; [by left|].
  destruct (p c); [|by left].
  destruct IH as [-> | ->]; [apply Hk | by right].
Qed.

Lemma match_re_const r : forall s g (k : cont) v,
  group_free r = true ->
  (forall s', k s' g = None \/ k s' g = Some v) ->
  match_re r s g k = None \/ match_re r s g k = Some v.
Proof.
  induction r as [p|p|r1 IH1 r2 IH2|r1 IH1|r1 IH1]; intros s g k v Hf Hk;
    simpl in *.
  - destruct s as [|c s]; [by left|]. destruct (p c); [apply Hk | by left].
  - by apply match_plus_const.
  - apply andb_true_iff in Hf as [Hf1 Hf2].
    apply IH1; [done|]. intros s'. by apply IH2.
  - destruct (IH1 s g k v Hf Hk) as [-> | ->]; [apply Hk | by right].
  - done.
Qed.

Lemma space_not_word c : space c = true -> word c = false.
Proof. UrlParseFacts.each_char c; vm_compute; done. Qed.

Example request_re_get :
  re_match request_re "GET /foo HTTP/1.1" = Some ["GET" ; "/foo"].
Proof. reflexivity. Qed.

Example request_re_no_uri : re_match request_re "GET " = None.
Proof. reflexivity. Qed.

(** The request line [method ws uri rest]: a run of word characters, a run
    of white space, a run of other characters, and then nothing or more
    white-space-separated text.  The groups are the method and the URI;
    what follows the URI, an [HTTP/x.y] token or not, is ignored. *)
Lemma request_re_match method ws uri rest :
  method <> "" -> all word method = true ->
  ws <> "" -> all space ws = true ->
  uri <> "" -> all nonspace uri = true ->
  stops nonspace rest ->
  re_match request_re (method +:+ ws +:+ uri +:+ rest) = Some [method ; uri].
Proof.
  intros Hm1 Hm2 Hw1 Hw2 Hu1 Hu2 Hr.
  unfold re_match, request_re. cbn [match_re].
  apply match_plus_greedy; [done..| |].
  { destruct ws as [|c ws]; [done|]. simpl in *.
    apply andb_true_iff in Hw2 as [Hc _]. by apply space_not_word. }
  rewrite length_app.
  replace (_ + _ - _) with (String.length method) by lia.
  rewrite slice_to_app.
  apply match_plus_greedy; [done..| |].
  { destruct uri as [|c uri]; [done|]. simpl in *.
    apply andb_true_iff in Hu2 as [Hc _]. unfold nonspace in Hc.
    unfold space. by destruct (isspace c). }
  apply match_plus_greedy; [done..|].
  rewrite length_app.
  replace (_ + _ - _) with (String.length uri) by lia.
  rewrite slice_to_app.
  destruct (match_re_const http_version rest [uri ; method]
              (fun _ g => Some (rev g)) [method ; uri] eq_refl) as [-> | ->];
    [by right | done..].
Qed.

End RegexFacts.

(** ** Sequencing *)

Module MonadFacts.
Import Tool.

Lemma bind_ok {A B} (m : M A) (f : A -> M B) st a st1 ev1 :
  m st = (Ok a, st1, ev1) ->
  (m ≫= f) st = ((f a st1).1, ev1 ++ (f a st1).2).
Proof.
  intros H. unfold mbind, M_bind. rewrite H. by destruct (f a st1) as [[? ?] ?].
Qed.

Lemma bind_step {A B} (m : M A) (f : A -> M B) st a st1 ev1 r st2 ev2 :
  m st = (Ok a, st1, ev1) -> f a st1 = (r, st2, ev2) ->
  (m ≫= f) st = (r, st2, ev1 ++ ev2).
Proof. intros H1 H2. unfold mbind, M_bind. by rewrite H1, H2. Qed.

Lemma bind_raise {A B} (m : M A) (f : A -> M B) st e st1 ev1 :
  m st = (Raise e, st1, ev1) -> (m ≫= f) st = (Raise e, st1, ev1).
Proof. intros H. unfold mbind, M_bind. by rewrite H. Qed.

Section Always.
Context (P : state -> list event -> state -> Prop) (HP : composable P).

Lemma always_ret {A} (a : A) : always P (mret a : M A).
Proof. intros st. apply (comp_nil P HP). Qed.

Lemma always_pass : always P pass.
Proof. apply always_ret. Qed.

Lemma always_lift {A} (r : result A) : always P (lift r).
Proof. intros st. apply (comp_nil P HP). Qed.

Lemma always_bind {A B} (m : M A) (f : A -> M B) :
  always P m -> (forall a, always P (f a)) -> always P (m ≫= f).
Proof.
  intros Hm Hf st. specialize (Hm st).
  destruct (m st) as [[[a|e] st1] ev1] eqn:E.
  - rewrite (bind_ok _ _ _ _ _ _ E). specialize (Hf a st1).
    destruct (f a st1) as [[r st2] ev2]. by eapply (comp_app P HP).
  - by rewrite (bind_raise _ _ _ _ _ _ E).
Qed.

Lemma always_if {A} (b : bool) (m1 m2 : M A) :
  always P m1 -> always P m2 -> always P (if b then m1 else m2).
Proof. by destruct b. Qed.

End Always.

Lemma found_urls_app e1 e2 :
  found_urls (e1 ++ e2) = found_urls e1 ++ found_urls e2.
Proof. apply omap_app. Qed.

Lemma saved_lines_app e1 e2 :
  saved_lines (e1 ++ e2) = saved_lines e1 ++ saved_lines e2.
Proof. apply omap_app. Qed.

Lemma processed_app e1 e2 : processed (e1 ++ e2) = processed e1 ++ processed e2.
Proof. apply omap_app. Qed.

Lemma fresh_in_nil st st' : fresh_in st st' [].
Proof. split; [constructor | set_solver]. Qed.

Lemma fresh_in_app st st1 st2 l1 l2 :
  seen_urls st ⊆ seen_urls st1 -> seen_urls st1 ⊆ seen_urls st2 ->
  fresh_in st st1 l1 -> fresh_in st1 st2 l2 -> fresh_in st st2 (l1 ++ l2).
Proof.
  intros H01 H12 [Hd1 H1] [Hd2 H2]. split.
  - apply NoDup_app. split; [done|]. split; [|done].
    intros u Hu1 Hu2. apply H1 in Hu1. apply H2 in Hu2. tauto.
  - intros u [Hu|Hu]%elem_of_app.
    + destruct (H1 u Hu) as [Ha Hb]. split; [|done].
      by apply (proj1 (elem_of_subseteq _ _) H12).
    + destruct (H2 u Hu) as [Ha Hb]. split; [done|]. intros Hc. apply Hb.
      by apply (proj1 (elem_of_subseteq _ _) H01).
Qed.

Lemma seen_grows_composable : composable seen_grows.
Proof.
  split.
  - intros st. repeat split; (done || constructor || set_solver).
  - intros st ev1 st1 ev2 st2 (H01 & Hf1 & Hs1) (H12 & Hf2 & Hs2).
    split; [set_solver|]. rewrite found_urls_app, saved_lines_app.
    split; by eapply fresh_in_app.
Qed.

Lemma no_target_composable : composable no_target.
Proof.
  split; [done|]. unfold no_target. intros _ ev1 _ ev2 _ H1 H2.
  by rewrite processed_app, H1, H2.
Qed.

End MonadFacts.

(** ** Parser *)

Module ParserFacts.
Import PyStr Regex Tool PyStrFacts RegexFacts.

Section Facts.
Variable BeautifulSoup : string -> Soup.

(** Where the title indicator can be evaluated, [is_valid] is the
    disjunction of the four indicators. *)
Lemma is_valid_true html :
  truthy html = true ->
  soup_title (BeautifulSoup html) <> Some None ->
  match soup_title (BeautifulSoup html) with
  | Some (Some s) => contains "Apache Status" s
  | _ => false
  end
  || existsb (contains "Apache Server Status") (soup_h1 (BeautifulSoup html))
  || contains "<h1>Apache Server Status for" html
  || contains "<th>Srv</th><th>PID</th>" html = true ->
  is_valid BeautifulSoup html = Ok true.
Proof.
  intros Ht Hn Hi. unfold is_valid. rewrite Ht. cbn [negb].
  destruct (soup_title (BeautifulSoup html)) as [[s|]|]; [|done|];
    cbn [mbind result_bind existsb id]; f_equal;
    rewrite orb_false_r, !orb_assoc; exact Hi.
Qed.

Lemma is_valid_empty : is_valid BeautifulSoup "" = Ok false.
Proof. reflexivity. Qed.

Lemma extract_row_no_match row :
  re_match request_re (strip (nth 14 row "")) = None ->
  extract_row row = None.
Proof. intros H. unfold extract_row. rewrite H. by destruct (_ <? _). Qed.

Lemma extract_row_short row : length row < 15 -> extract_row row = None.
Proof.
  intros H. unfold extract_row.
  by destruct (Nat.ltb_spec (length row) 15); [|lia].
Qed.

End Facts.

(** C3, at the failing input. A document with a title element whose
    [.string] is [None] (an empty title) makes [is_valid] raise
    [TypeError] while the indicators are collected, whichever of them
    hold. *)
Theorem is_valid_raises parse html :
  truthy html = true ->
  soup_title (parse html) = Some None ->
  is_valid parse html = Raise TypeError.
Proof. intros Ht Hs. unfold is_valid. by rewrite Ht, Hs. Qed.

Lemma is_valid_raises_witness :
  contains "<th>Srv</th><th>PID</th>"
           "<title></title><th>Srv</th><th>PID</th>" = true /\
  is_valid (fun _ => mkSoup (Some None) [] [])
           "<title></title><th>Srv</th><th>PID</th>" = Raise TypeError.
Proof.
  split; [reflexivity|].
  apply (is_valid_raises (fun _ => mkSoup (Some None) [] [])); reflexivity.
Defined.

(** C4, as stated, fails: the method token [M-SEARCH] is made of
    characters other than white space and is followed by white space and a
    URI, yet the line does not match and the row gives no record. *)
Lemma method_with_hyphen_skipped :
  all nonspace "M-SEARCH" = true /\
  re_match request_re "M-SEARCH /foo" = None /\
  extract_row ["0" ; "123" ; "" ; "" ; "" ; "" ; "" ; "" ; "" ; "" ; "" ;
               "" ; "" ; "example.com" ; "M-SEARCH /foo"] = None.
Proof. repeat split. Qed.

(** C4, amended. In a row with at least 15 columns, a request line that
    is a run of word characters (the method), white space, a run of
    characters other than white space (the URI) and then nothing or more
    text after white space matches whatever that text is; the row gives
    the record of its PID, method and [http://vhost + URI] when the vhost
    is not empty.  A line that does not match skips its own row only. *)
Theorem request_line_rule parse (row : list string) :
  15 <= length row ->
  (forall method ws uri rest,
     method <> "" -> all word method = true ->
     ws <> "" -> all space ws = true ->
     uri <> "" -> all nonspace uri = true ->
     stops nonspace rest ->
     strip (nth 14 row "") = method +:+ ws +:+ uri +:+ rest ->
     extract_row row =
       if truthy (strip (nth 13 row ""))
       then Some (mkEntry (strip (nth 1 row "")) method
                          ("http://" +:+ strip (nth 13 row "") +:+ uri))
       else None) /\
  (re_match request_re (strip (nth 14 row "")) = None ->
   forall html header before after tables,
     soup_tables (parse html) = (header :: before ++ row :: after) :: tables ->
     extract_urls parse html
     = omap extract_row before ++ omap extract_row after).
Proof.
  intros Hlen. split.
  - intros method ws uri rest Hm1 Hm2 Hw1 Hw2 Hu1 Hu2 Hr Hline.
    unfold extract_row.
    destruct (Nat.ltb_spec (length row) 15); [lia|].
    rewrite Hline, request_re_match by done.
    destruct (truthy (strip (nth 13 row ""))); [|done].
    by destruct uri.
  - intros Hno html header before after tables Ht.
    unfold extract_urls. rewrite Ht. simpl drop. rewrite drop_0.
    rewrite omap_app. cbn [omap list_omap].
    by rewrite (extract_row_no_match row Hno).
Qed.

Lemma request_line_rule_witness :
  extract_row ["0" ; "123" ; "" ; "" ; "" ; "" ; "" ; "" ; "" ; "" ; "" ;
               "" ; "" ; "example.com" ; "GET /foo HTTP/1.1"]
  = Some (mkEntry "123" "GET" "http://example.com/foo") /\
  extract_urls
    (fun _ => mkSoup None []
       [[ ["Srv"] ;
          ["0" ; "7" ; "" ; "" ; "" ; "" ; "" ; "" ; "" ; "" ; "" ;
           "" ; "" ; "a.org" ; "GET" ] ]])
    "x" = [].
Proof.
  split.
  - apply (proj1 (request_line_rule (fun _ => mkSoup None [] [])
             ["0" ; "123" ; "" ; "" ; "" ; "" ; "" ; "" ; "" ; "" ; "" ;
              "" ; "" ; "example.com" ; "GET /foo HTTP/1.1"]
             ltac:(simpl; lia)) "GET" " " "/foo" " HTTP/1.1");
      (done || reflexivity).
  - apply (proj2 (request_line_rule _
             ["0" ; "7" ; "" ; "" ; "" ; "" ; "" ; "" ; "" ; "" ; "" ;
              "" ; "" ; "a.org" ; "GET" ]
             ltac:(simpl; lia)) eq_refl "x" ["Srv"] [] [] []).
    reflexivity.
Defined.

(** C5. A first table made of a header row and one data row of exactly 15
    columns, with PID [123], vhost [example.com] and request
    [GET /foo HTTP/1.1], gives exactly the record of PID [123], method
    [GET] and URL [http://example.com/foo]. *)
Theorem extract_urls_one_row parse html (header row : list string) tables :
  soup_tables (parse html) = [header ; row] :: tables ->
  length row = 15 ->
  strip (nth 1 row "") = "123" ->
  strip (nth 13 row "") = "example.com" ->
  strip (nth 14 row "") = "GET /foo HTTP/1.1" ->
  extract_urls parse html = [mkEntry "123" "GET" "http://example.com/foo"].
Proof.
  intros Ht Hlen Hpid Hvhost Hreq.
  unfold extract_urls. rewrite Ht. simpl drop. cbn [omap list_omap].
  unfold extract_row. rewrite Hlen, Hpid, Hvhost, Hreq. reflexivity.
Qed.

Lemma extract_urls_one_row_witness :
  extract_urls
    (fun _ => mkSoup (Some (Some "Apache Status")) []
       [[ ["Srv" ; "PID"] ;
          ["0-0" ; " 123 " ; "0/1/1" ; "W" ; "0.00" ; "0" ; "0" ; "0.0" ;
           "0.00" ; "0.00" ; "10.0.0.1" ; "http/1.1" ; "" ;
           "example.com" ; "GET /foo HTTP/1.1 " ] ]])
    "<html>"
  = [mkEntry "123" "GET" "http://example.com/foo"].
Proof.
  apply (extract_urls_one_row _ "<html>" ["Srv" ; "PID"]
           ["0-0" ; " 123 " ; "0/1/1" ; "W" ; "0.00" ; "0" ; "0" ; "0.0" ;
            "0.00" ; "0.00" ; "10.0.0.1" ; "http/1.1" ; "" ;
            "example.com" ; "GET /foo HTTP/1.1 " ] []); reflexivity.
Defined.

End ParserFacts.

(** ** Requester *)

Module FetchFacts.
Import PyStr UrlParse Tool MonadFacts NormalizerFacts.

Section Facts.
Variable chk : string -> bool.
Variable requests_get : nat -> string -> bool -> outcome.
Hypothesis Hfail : always_fails requests_get.

Lemma fetch_scheme_fails url scheme p st :
  urlparse chk url = Ok p ->
  exists n, fetch_scheme chk requests_get url scheme st
            = (Ok None, mkState (seen_urls st) n, []).
Proof.
  intros Hp. unfold fetch_scheme, mbind, M_bind, lift, get. rewrite Hp.
  cbn [requests seen_urls].
  destruct (requests_get (requests st) _ true) as [text sc| |] eqn:E1.
  - by apply Hfail in E1.
  - cbn [requests seen_urls].
    destruct (requests_get (S (requests st)) _ false) as [text sc| |] eqn:E2;
      [by apply Hfail in E2 | by eexists..].
  - by eexists.
Qed.

Lemma fetch_schemes_fails url schemes p st :
  urlparse chk url = Ok p ->
  exists n, fetch_schemes chk requests_get url schemes st
            = (Ok None, mkState (seen_urls st) n, []).
Proof.
  intros Hp. revert st. induction schemes as [|scheme schemes IH]; intros st.
  - exists (requests st). by destruct st.
  - destruct (fetch_scheme_fails url scheme p st Hp) as [n Hn].
    cbn [fetch_schemes]. rewrite (bind_ok _ _ _ _ _ _ Hn).
    destruct (IH (mkState (seen_urls st) n)) as [n' ->]. by exists n'.
Qed.

Lemma fetch_attempts_fails url schemes max_retries attempt attempts p st :
  urlparse chk url = Ok p ->
  exists n,
    fetch_attempts chk requests_get url schemes max_retries
                   (attempt :: attempts) st
    = let o := fetch_attempts chk requests_get url schemes max_retries
                              attempts (mkState (seen_urls st) n) in
      (o.1, (if attempt <? max_retries - 1 then [Sleep 1] else []) ++ o.2).
Proof.
  intros Hp. destruct (fetch_schemes_fails url schemes p st Hp) as [n Hn].
  exists n. cbn [fetch_attempts]. rewrite (bind_ok _ _ _ _ _ _ Hn).
  cbn [app]. unfold mbind, M_bind, emit, pass, mret, M_ret.
  destruct (attempt <? max_retries - 1);
    by destruct (fetch_attempts _ _ _ _ _ _ _) as [[? ?] ?].
Qed.

Lemma fetch_fails url p st :
  urlparse chk url = Ok p ->
  exists n, fetch chk requests_get url st
            = (Ok ("", None), mkState (seen_urls st) n, [Sleep 1 ; Sleep 1]).
Proof.
  intros Hp. unfold fetch.
  assert (lift (urlparse chk url) st = (Ok p, st, [])) as Hl
    by (unfold lift; by rewrite Hp).
  rewrite (bind_ok _ _ _ _ _ _ Hl). cbn [seq app].
  set (schemes := if negb (truthy (scheme p)) then _ else _).
  destruct (fetch_attempts_fails url schemes 3 0 [1 ; 2] p st Hp) as [n1 H1].
  destruct (fetch_attempts_fails url schemes 3 1 [2] p
              (mkState (seen_urls st) n1) Hp) as [n2 H2].
  destruct (fetch_attempts_fails url schemes 3 2 []
              p (mkState (seen_urls st) n2) Hp) as [n3 H3].
  cbn [seen_urls] in H2, H3. exists n3.
  rewrite H1. cbv zeta. rewrite H2. cbv zeta. rewrite H3. reflexivity.
Qed.

End Facts.

(** C6. When no request yields a response, [fetch] returns [('', None)]
    after its three rounds, without raising; [process_url] then reports the
    target as not vulnerable with the status shown as [None], returns
    [False] and leaves [seen_urls] as it was. *)
Theorem fetch_all_fail chk requests_get parse :
  always_fails requests_get ->
  (forall url p st,
     urlparse chk url = Ok p ->
     value_of (fetch chk requests_get url st) = Ok ("", None)) /\
  (forall raw u output_file st,
     clean_url chk raw = Ok u ->
     let o := process_url chk requests_get parse raw output_file st in
     value_of o = Ok false /\
     events_of o = [Checking u ; Sleep 1 ; Sleep 1 ; NotVulnerable (inr "None")] /\
     seen_urls (state_of o) = seen_urls st).
Proof.
  intros Hfail. split.
  - intros url p st Hp.
    by destruct (fetch_fails chk requests_get Hfail url p st Hp) as [n ->].
  - intros raw u output_file st Hu.
    destruct (clean_url_parse chk raw u Hu) as (p & Hp & _).
    destruct (fetch_fails chk requests_get Hfail u p st Hp) as [n Hn].
    assert (lift (clean_url chk raw) st = (Ok u, st, [])) as Hl
      by (unfold lift; by rewrite Hu).
    assert (process_url chk requests_get parse raw output_file st
            = (Ok false, mkState (seen_urls st) n,
               [] ++ [Checking u] ++ [Sleep 1 ; Sleep 1] ++
               [NotVulnerable (inr "None")])) as ->.
    { unfold process_url. eapply bind_step; [exact Hl|].
      eapply bind_step; [reflexivity|].
      eapply bind_step; [exact Hn|]. reflexivity. }
    by repeat split.
Qed.

Lemma fetch_all_fail_witness :
  value_of (fetch (fun _ => true) (fun _ _ _ => SSLError)
                  "http://example.com/server-status" (mkState ∅ 0))
  = Ok ("", None) /\
  events_of (process_url (fun _ => true) (fun _ _ _ => SSLError)
                         (fun _ => mkSoup None [] []) "example.com" None
                         (mkState ∅ 0))
  = [Checking "http://example.com/server-status" ; Sleep 1 ; Sleep 1 ;
     NotVulnerable (inr "None")].
Proof.
  assert (always_fails (fun _ _ _ => SSLError)) as Hfail by (by intros ?).
  split.
  - apply (proj1 (fetch_all_fail (fun _ => true) (fun _ _ _ => SSLError)
                    (fun _ => mkSoup None [] []) Hfail)
             "http://example.com/server-status"
             (mkParse "http" "example.com" "/server-status" "" "" "")).
    reflexivity.
  - apply (proj2 (fetch_all_fail (fun _ => true) (fun _ _ _ => SSLError)
                    (fun _ => mkSoup None [] []) Hfail)
             "example.com" "http://example.com/server-status" None
             (mkState ∅ 0)).
    reflexivity.
Defined.

End FetchFacts.

(** ** process_url and main *)

Module RunFacts.
Import PyStr UrlParse Tool MonadFacts.

Lemma events_bind {A B} (m : M A) (f : A -> M B) st :
  events_of ((m ≫= f) st)
  = events_of (m st) ++
    match value_of (m st) with
    | Ok a => events_of (f a (state_of (m st)))
    | Raise _ => []
    end.
Proof.
  unfold mbind, M_bind, events_of, value_of, state_of.
  destruct (m st) as [[[a|e] st1] ev1]; simpl.
  - by destruct (f a st1) as [[? ?] ?].
  - by rewrite app_nil_r.
Qed.

Lemma seen_mem_bind {B} url (k : bool -> M B) st :
  (seen_mem url ≫= k) st = k (bool_decide (url ∈ seen_urls st)) st.
Proof.
  unfold mbind, M_bind, seen_mem. by destruct (k _ st) as [[? ?] ?].
Qed.

Lemma seen_new_bind {B} (k : unit -> M B) st :
  (seen_new ≫= k) st = k tt (mkState ∅ (requests st)).
Proof.
  unfold mbind, M_bind, seen_new. by destruct (k _ _) as [[? ?] ?].
Qed.

Lemma events_emit_bind {B} e (k : unit -> M B) st :
  events_of ((emit e ≫= k) st) = e :: events_of (k tt st).
Proof.
  unfold mbind, M_bind, emit, events_of. by destruct (k tt st) as [[? ?] ?].
Qed.

(** A continuation that starts no target adds nothing to [processed]. *)
Lemma processed_bind {A B} (m : M A) (f : A -> M B) st :
  (forall a, always no_target (f a)) ->
  processed (events_of ((m ≫= f) st)) = processed (events_of (m st)).
Proof.
  intros Hf. rewrite events_bind, processed_app.
  destruct (value_of (m st)) as [a|e]; [|by rewrite app_nil_r].
  by rewrite (Hf a (state_of (m st))), app_nil_r.
Qed.

(** *** What holds of every step outside the loop over entries *)

Section Generic.
Variable chk : string -> bool.
Variable requests_get : nat -> string -> bool -> outcome.
Variable BeautifulSoup : string -> Soup.
Context (P : state -> list event -> state -> Prop) (HP : composable P).
Hypothesis Hemit : forall e st, plain e = true -> P st [e] st.
Hypothesis Hget : forall st n, P st [] (mkState (seen_urls st) n).
Hypothesis Hreport :
  forall entries output_file, always P (report_entries entries output_file).

Lemma always_emit e : plain e = true -> always P (emit e).
Proof. intros He st. by apply Hemit. Qed.

Lemma always_get target_url verify :
  always P (get requests_get target_url verify).
Proof. intros st. apply Hget. Qed.

Lemma always_fetch_scheme url scheme :
  always P (fetch_scheme chk requests_get url scheme).
Proof.
  unfold fetch_scheme. apply always_bind; [done | by apply always_lift |].
  intros p. apply always_bind; [done | apply always_get |].
  intros [text sc| |]; [by apply always_ret | | by apply always_ret].
  apply always_bind; [done | apply always_get |].
  intros [text sc| |]; by apply always_ret.
Qed.

Lemma always_fetch_schemes url schemes :
  always P (fetch_schemes chk requests_get url schemes).
Proof.
  induction schemes as [|scheme schemes IH]; cbn [fetch_schemes].
  - by apply always_ret.
  - apply always_bind; [done | apply always_fetch_scheme |].
    intros [resp|]; [by apply always_ret | done].
Qed.

Lemma always_fetch_attempts url schemes max_retries attempts :
  always P (fetch_attempts chk requests_get url schemes max_retries attempts).
Proof.
  induction attempts as [|attempt attempts IH]; cbn [fetch_attempts].
  - by apply always_ret.
  - apply always_bind; [done | apply always_fetch_schemes |].
    intros [resp|]; [by apply always_ret|].
    apply always_bind; [done | | done].
    apply always_if; [by apply always_emit | by apply always_pass].
Qed.

Lemma always_fetch url : always P (fetch chk requests_get url).
Proof.
  unfold fetch. apply always_bind; [done | by apply always_lift |].
  intros p. apply always_fetch_attempts.
Qed.

Lemma always_process_url url output_file :
  always P (process_url chk requests_get BeautifulSoup url output_file).
Proof.
  unfold process_url. apply always_bind; [done | by apply always_lift |].
  intros u. apply always_bind; [done | by apply always_emit |].
  intros _. apply always_bind; [done | apply always_fetch |].
  intros [html status_code].
  apply always_bind; [done | by apply always_lift |].
  intros valid. apply always_if.
  - apply always_bind; [done | by apply always_emit |].
    intros _. by apply always_ret.
  - apply always_bind; [done | |].
    { apply always_if; [by apply always_emit | by apply always_pass]. }
    intros _. apply always_bind; [done | apply Hreport |].
    intros _. apply always_bind; [done | |].
    { apply always_if; [by apply always_pass | by apply always_emit]. }
    intros _. by apply always_ret.
Qed.

Lemma always_countdown j : always P (countdown j).
Proof.
  induction j as [|j IH]; cbn [countdown]; [by apply always_pass|].
  apply always_bind; [done | by apply always_emit |].
  intros _. apply always_bind; [done | by apply always_emit |]. done.
Qed.

End Generic.

(** *** seen_urls grows *)

Lemma grows_quiet st n evs :
  found_urls evs = [] -> saved_lines evs = [] ->
  seen_grows st evs (mkState (seen_urls st) n).
Proof.
  intros Hf Hs. unfold seen_grows. rewrite Hf, Hs.
  split; [done|]. split; apply fresh_in_nil.
Qed.

Lemma grows_emit e :
  found_urls [e] = [] -> saved_lines [e] = [] -> always seen_grows (emit e).
Proof.
  intros Hf Hs st. unfold emit, events_of, state_of. cbn [fst snd].
  destruct st as [seen n]. by apply (grows_quiet (mkState seen n) n).
Qed.

Lemma grows_plain e st : plain e = true -> seen_grows st [e] st.
Proof.
  intros He. destruct st as [seen n].
  apply (grows_quiet (mkState seen n) n); by destruct e.
Qed.

(** The three statements under [if url not in seen_urls]. *)
Lemma report_new entry output_file st :
  entry_url entry ∉ seen_urls st ->
  exists saved,
    (seen_add (entry_url entry);;
     emit (Found (entry_pid entry) (entry_method entry) (entry_url entry));;
     save_line (entry_url entry) output_file) st
    = (Ok tt, mkState ({[entry_url entry]} ∪ seen_urls st) (requests st),
       Found (entry_pid entry) (entry_method entry) (entry_url entry) :: saved)
    /\ (saved_lines saved = [] \/ saved_lines saved = [entry_url entry])
    /\ found_urls saved = [].
Proof.
  intros _. destruct output_file as [[|c file]|]; eexists;
    (split; [reflexivity|]); auto.
Qed.

Lemma report_new_grows entry st saved :
  entry_url entry ∉ seen_urls st ->
  saved_lines saved = [] \/ saved_lines saved = [entry_url entry] ->
  found_urls saved = [] ->
  seen_grows st
    (Found (entry_pid entry) (entry_method entry) (entry_url entry) :: saved)
    (mkState ({[entry_url entry]} ∪ seen_urls st) (requests st)).
Proof.
  intros Hnew Hs Hf.
  assert (fresh_in st (mkState ({[entry_url entry]} ∪ seen_urls st)
                               (requests st)) [entry_url entry]) as Hfresh.
  { split; [apply NoDup_singleton|].
    intros u ->%list_elem_of_singleton. cbn [seen_urls].
    split; [|done]. by apply elem_of_union_l, elem_of_singleton_2. }
  split; [cbn [seen_urls]; apply union_subseteq_r|]. split.
  - change (found_urls (?e :: saved)) with (entry_url entry :: found_urls saved).
    by rewrite Hf.
  - change (saved_lines (?e :: saved)) with (saved_lines saved).
    destruct Hs as [-> | ->]; [apply fresh_in_nil | done].
Qed.

Lemma report_entries_grows entries output_file :
  always seen_grows (report_entries entries output_file).
Proof.
  pose proof seen_grows_composable as HP.
  induction entries as [|entry entries IH]; cbn [report_entries].
  - by apply always_pass.
  - intros st. rewrite seen_mem_bind.
    destruct (bool_decide (entry_url entry ∈ seen_urls st)) eqn:Hseen;
      cbn [negb].
    + apply (always_bind seen_grows HP pass
               (fun _ => report_entries entries output_file));
        [by apply always_pass | done].
    + apply bool_decide_eq_false in Hseen.
      destruct (report_new entry output_file st Hseen) as (saved & Hrun & Hs & Hf).
      rewrite (bind_ok _ _ _ _ _ _ Hrun).
      unfold events_of, state_of. cbn [fst snd].
      eapply (comp_app _ HP); [by apply report_new_grows|].
      apply IH.
Qed.

Section Run.
Variable chk : string -> bool.
Variable requests_get : nat -> string -> bool -> outcome.
Variable BeautifulSoup : string -> Soup.
Variable read_lines : string -> option (list string).

Abbreviation process_url' := (process_url chk requests_get BeautifulSoup).
Abbreviation main_loop' := (main_loop chk requests_get BeautifulSoup).
Abbreviation main_run' := (main_run chk requests_get BeautifulSoup).
Abbreviation main' := (main chk requests_get BeautifulSoup read_lines).

Lemma process_url_grows url output_file :
  always seen_grows (process_url' url output_file).
Proof.
  apply always_process_url.
  - apply seen_grows_composable.
  - intros e st. apply grows_plain.
  - intros st n. by apply grows_quiet.
  - apply report_entries_grows.
Qed.

Lemma main_loop_grows args n urls vulnerable_count :
  always seen_grows (main_loop' args n urls vulnerable_count).
Proof.
  pose proof seen_grows_composable as HP.
  revert vulnerable_count.
  induction urls as [|[i url] urls IH]; intros vulnerable_count;
    cbn [main_loop].
  - by apply always_ret.
  - apply always_bind; [done | by apply grows_emit |].
    intros _. apply always_bind; [done | apply process_url_grows |].
    intros vulnerable. apply always_bind; [done | | intros _; apply IH].
    apply always_if.
    + apply always_bind; [done | | intros _; by apply grows_emit].
      apply always_countdown; [done|]. intros e st. apply grows_plain.
    + apply always_if; [by apply grows_emit | by apply always_pass].
Qed.

Lemma main_run_grows args urls : always seen_grows (main_run' args urls).
Proof.
  pose proof seen_grows_composable as HP. unfold main_run.
  apply always_bind; [done | apply main_loop_grows |].
  intros vulnerable_count.
  apply always_bind; [done | by apply grows_emit |].
  intros _. apply always_bind; [done | |].
  { intros st. apply (comp_nil _ HP). }
  intros n. apply always_if; [|by apply always_pass].
  apply always_bind; [done | by apply grows_emit |].
  intros _. apply always_if; [by apply grows_emit | by apply always_pass].
Qed.

(** [main] once [seen_urls = set()] is executed. *)
Lemma main_grows args st :
  negb (truthy_opt (arg_url args)) && negb (truthy_opt (arg_input args))
  = false ->
  exists evs st',
    events_of (main' args st) = evs /\
    seen_grows (mkState ∅ (requests st)) evs st'.
Proof.
  pose proof seen_grows_composable as HP.
  intros Hargs. unfold main. rewrite Hargs, seen_new_bind.
  match goal with
  | |- exists evs st', events_of ?o = evs /\ _ =>
      exists (events_of o), (state_of o)
  end.
  split; [reflexivity|]. generalize (mkState ∅ (requests st)). clear st.
  apply (always_bind seen_grows HP).
  - apply always_if.
    + apply always_bind; [done | by apply grows_emit |].
      intros _. by apply always_ret.
    + destruct (read_lines _) as [urls|].
      * apply always_bind; [done | by apply grows_emit |].
        intros _. by apply always_ret.
      * apply always_bind; [done | by apply grows_emit |].
        intros _. by apply always_ret.
  - intros [urls|]; [|by apply always_pass].
    apply always_if; [by apply grows_emit | apply main_run_grows].
Qed.

(** *** No target is started outside the loop of main *)

Lemma no_target_emit e st :
  (forall i n, e <> Processing i n) -> no_target st [e] st.
Proof. intros He. unfold no_target. destruct e; try done. by destruct (He i n). Qed.

Lemma report_entries_no_target entries output_file :
  always no_target (report_entries entries output_file).
Proof.
  pose proof no_target_composable as HP.
  induction entries as [|entry entries IH]; cbn [report_entries].
  - by apply always_pass.
  - apply always_bind; [done | by intros st |].
    intros seen. apply always_bind; [done | | done].
    apply always_if; [|by apply always_pass].
    apply always_bind; [done | by intros st |].
    intros _. apply always_bind; [done | by intros st |].
    intros _. unfold save_line.
    destruct output_file as [file|]; [|by apply always_pass].
    apply always_if; [by intros st | by apply always_pass].
Qed.

Lemma process_url_no_target url output_file :
  always no_target (process_url' url output_file).
Proof.
  apply always_process_url.
  - apply no_target_composable.
  - intros e st He. apply no_target_emit. intros i n ->. done.
  - done.
  - apply report_entries_no_target.
Qed.

End Run.

(** C9. [seen_urls] only grows over a call of [process_url], whether the
    call returns or raises: the set afterwards contains the set before,
    and every URL the call announces or saves is in it. *)
Theorem seen_urls_only_grows chk requests_get parse url output_file st :
  let o := process_url chk requests_get parse url output_file st in
  seen_urls st ⊆ seen_urls (state_of o) /\
  (forall u, u ∈ found_urls (events_of o) \/ u ∈ saved_lines (events_of o) ->
             u ∈ seen_urls (state_of o)).
Proof.
  destruct (process_url_grows chk requests_get parse url output_file st)
    as (Hsub & [_ Hf] & [_ Hs]).
  split; [done|]. intros u [Hu|Hu]; [by apply Hf | by apply Hs].
Qed.

Lemma seen_urls_only_grows_witness :
  "http://example.com/foo"
  ∈ seen_urls (state_of (process_url (fun _ => true) sample_net
                           (fun _ => sample_soup) "example.com"
                           (Some "urls.txt") (mkState ∅ 0))).
Proof.
  apply (proj2 (seen_urls_only_grows (fun _ => true) sample_net
                  (fun _ => sample_soup) "example.com" (Some "urls.txt")
                  (mkState ∅ 0))).
  left. vm_compute. apply list_elem_of_here.
Defined.

(** C7. In one run of [main] every URL is announced at most once and saved
    at most once; a URL that is already in [seen_urls] when a target is
    processed, because an earlier target had it, gives no line. *)
Theorem emitted_at_most_once chk requests_get parse read_lines :
  (forall args st,
     let o := main chk requests_get parse read_lines args st in
     NoDup (found_urls (events_of o)) /\ NoDup (saved_lines (events_of o))) /\
  (forall url output_file st u,
     u ∈ seen_urls st ->
     let o := process_url chk requests_get parse url output_file st in
     (u ∉ found_urls (events_of o)) /\ (u ∉ saved_lines (events_of o))).
Proof.
  split.
  - intros args st.
    destruct (negb (truthy_opt (arg_url args)) &&
              negb (truthy_opt (arg_input args))) eqn:Hargs.
    + unfold main. rewrite Hargs. split; constructor.
    + destruct (main_grows chk requests_get parse read_lines args st Hargs)
        as (evs & st' & <- & _ & [Hf _] & [Hs _]).
      done.
  - intros url output_file st u Hu.
    destruct (process_url_grows chk requests_get parse url output_file st)
      as (_ & [_ Hf] & [_ Hs]).
    split; intros Hin; [apply Hf in Hin | apply Hs in Hin]; tauto.
Qed.

Lemma emitted_at_most_once_witness :
  NoDup (saved_lines (events_of
    (main (fun _ => true) sample_net (fun _ => sample_soup)
          (fun _ => Some ["a.com" ; "b.com"])
          (mkArgs (Some "targets.txt") None 10 (Some "urls.txt"))
          (mkState ∅ 0)))) /\
  "http://example.com/foo" ∉ found_urls (events_of
    (process_url (fun _ => true) sample_net (fun _ => sample_soup)
                 "b.com" (Some "urls.txt")
                 (mkState {[ "http://example.com/foo" ]} 1))).
Proof.
  split.
  - apply (proj1 (emitted_at_most_once (fun _ => true) sample_net
                    (fun _ => sample_soup)
                    (fun _ => Some ["a.com" ; "b.com"]))).
  - apply (proj2 (emitted_at_most_once (fun _ => true) sample_net
                    (fun _ => sample_soup)
                    (fun _ => Some ["a.com" ; "b.com"]))).
    cbn [seen_urls]. by apply elem_of_singleton_2.
Defined.

(** The same row served by two targets is saved once. *)
Example same_url_two_targets :
  saved_lines (events_of
    (main (fun _ => true) sample_net (fun _ => sample_soup)
          (fun _ => Some ["a.com" ; "b.com"])
          (mkArgs (Some "targets.txt") None 10 (Some "urls.txt"))
          (mkState ∅ 0)))
  = ["http://example.com/foo"].
Proof. vm_compute. reflexivity. Qed.

(** C1, on the code. With [-u URL] the loop of [main] runs over the
    one-element list [[URL]]: the target is started once, the countdown
    is printed, and [main] goes on to the summary; the URL is not
    processed again. *)
Theorem single_url_processed_once chk requests_get parse read_lines args u st :
  arg_url args = Some u -> truthy u = true ->
  processed (events_of (main chk requests_get parse read_lines args st)) = [1].
Proof.
  intros Hurl Ht. pose proof no_target_composable as HP.
  unfold main. rewrite Hurl. cbn [truthy_opt default id]. rewrite Ht.
  cbn [negb andb]. rewrite seen_new_bind.
  set (st0 := mkState ∅ (requests st)).
  rewrite events_bind, processed_app.
  change (processed (events_of
            ((emit (ProcessingSingle u);; mret (Some [u])) st0))) with
    (@nil nat).
  change (value_of ((emit (ProcessingSingle u);; mret (Some [u])) st0))
    with (Ok (Some [u]) : result (option (list string))).
  change (state_of ((emit (ProcessingSingle u);; mret (Some [u])) st0))
    with st0.
  cbn [app]. cbv beta iota. rewrite bool_decide_eq_false_2 by done.
  unfold main_run. rewrite processed_bind.
  2:{ intros vulnerable_count.
      apply always_bind; [done | by intros ? |].
      intros _. apply always_bind; [done | by intros ? |].
      intros n. apply always_if; [|by apply always_pass].
      apply always_bind; [done | by intros ? |].
      intros _. apply always_if; [by intros ? | by apply always_pass]. }
  cbn [enumerate length seq zip zip_with main_loop].
  rewrite events_emit_bind.
  change (processed (Processing 1 1 :: ?evs)) with (1 :: processed evs).
  f_equal.
  match goal with
  | |- processed (events_of (?body ?s)) = [] =>
      assert (always no_target body) as Hbody; [|exact (Hbody s)]
  end.
  apply always_bind; [done | apply process_url_no_target |].
  intros vulnerable. apply always_bind; [done | | intros _; by apply always_ret].
  apply always_if.
  - apply always_bind; [done | | intros _; by intros ?].
    apply always_countdown; [done|].
    intros e s He. apply no_target_emit. by intros i n ->.
  - apply always_if; [by intros ? | by apply always_pass].
Qed.

Lemma single_url_processed_once_witness :
  processed (events_of
    (main (fun _ => true) (fun _ _ _ => RequestException)
          (fun _ => sample_soup) (fun _ => None)
          (mkArgs None (Some "http://example.com/server-status") 10 None)
          (mkState ∅ 0)))
  = [1].
Proof.
  apply (single_url_processed_once (fun _ => true)
           (fun _ _ _ => RequestException) (fun _ => sample_soup)
           (fun _ => None)
           (mkArgs None (Some "http://example.com/server-status") 10 None)
           "http://example.com/server-status"); reflexivity.
Defined.

End RunFacts.

(** * Further properties *)

(** ** Projections of a sequence *)

Module SeqFacts.
Import Tool MonadFacts.

Lemma value_bind {A B} (m : M A) (f : A -> M B) st :
  value_of ((m ≫= f) st)
  = match value_of (m st) with
    | Ok a => value_of (f a (state_of (m st)))
    | Raise e => Raise e
    end.
Proof.
  unfold mbind, M_bind, value_of, state_of.
  destruct (m st) as [[[a|e] st1] ev1]; simpl; [|done].
  by destruct (f a st1) as [[? ?] ?].
Qed.

Lemma state_bind {A B} (m : M A) (f : A -> M B) st :
  state_of ((m ≫= f) st)
  = match value_of (m st) with
    | Ok a => state_of (f a (state_of (m st)))
    | Raise e => state_of (m st)
    end.
Proof.
  unfold mbind, M_bind, value_of, state_of.
  destruct (m st) as [[[a|e] st1] ev1]; simpl; [|done].
  by destruct (f a st1) as [[? ?] ?].
Qed.

Lemma bind_step_eq {A B} (m : M A) (f : A -> M B) st a st1 ev1 r st2 ev2 evs :
  m st = (Ok a, st1, ev1) -> f a st1 = (r, st2, ev2) -> evs = ev1 ++ ev2 ->
  (m ≫= f) st = (r, st2, evs).
Proof. intros H1 H2 ->. exact (bind_step _ _ _ _ _ _ _ _ _ H1 H2). Qed.

Lemma run_eta {A} (o : result A * state * list event) :
  o = (value_of o, state_of o, events_of o).
Proof. by destruct o as [[? ?] ?]. Qed.

End SeqFacts.

(** ** Requester.fetch, request by request *)

Module FetchMore.
Import PyStr UrlParse Tool MonadFacts SeqFacts.

Section Facts.
Variable chk : string -> bool.
Variable requests_get : nat -> string -> bool -> outcome.

Abbreviation fetch_scheme' := (fetch_scheme chk requests_get).
Abbreviation fetch_schemes' := (fetch_schemes chk requests_get).
Abbreviation fetch_attempts' := (fetch_attempts chk requests_get).
Abbreviation fetch' := (fetch chk requests_get).

(** One pass of the inner loop, by the outcome of its requests. *)
Lemma fetch_scheme_run url scheme p st :
  urlparse chk url = Ok p ->
  fetch_scheme' url scheme st =
    match requests_get (requests st) (target_url_of p url scheme) true with
    | Response text status_code =>
        (Ok (Some (text, Some status_code)),
         mkState (seen_urls st) (S (requests st)), [])
    | SSLError =>
        match requests_get (S (requests st)) (target_url_of p url scheme) false
        with
        | Response text status_code =>
            (Ok (Some (text, Some status_code)),
             mkState (seen_urls st) (S (S (requests st))), [])
        | _ => (Ok None, mkState (seen_urls st) (S (S (requests st))), [])
        end
    | RequestException =>
        (Ok None, mkState (seen_urls st) (S (requests st)), [])
    end.
Proof.
  intros Hp. unfold fetch_scheme, mbind, M_bind, lift, get, target_url_of.
  rewrite Hp. cbn [requests seen_urls].
  destruct (requests_get (requests st) _ true); [done| |done].
  cbn [requests seen_urls].
  by destruct (requests_get (S (requests st)) _ false).
Qed.

Lemma fetch_scheme_spec url scheme p st :
  urlparse chk url = Ok p ->
  exists r st',
    fetch_scheme' url scheme st = (Ok r, st', []) /\
    requests_between 1 2 st st' /\
    (forall body sc, r = Some (body, sc) -> is_Some sc).
Proof.
  intros Hp. rewrite (fetch_scheme_run url scheme p st Hp).
  unfold requests_between.
  destruct (requests_get (requests st) _ true);
    [| destruct (requests_get (S (requests st)) _ false) |];
    eexists _, _; (split; [reflexivity|]); cbn [seen_urls requests];
    (split; [split; [done | lia] |]); intros body sc' Heq;
    by simplify_eq.
Qed.

Lemma fetch_schemes_spec url schemes p st :
  urlparse chk url = Ok p ->
  exists r st',
    fetch_schemes' url schemes st = (Ok r, st', []) /\
    requests_between (Nat.min 1 (length schemes)) (2 * length schemes) st st' /\
    (forall body sc, r = Some (body, sc) -> is_Some sc).
Proof.
  intros Hp. revert st. induction schemes as [|scheme schemes IH]; intros st.
  - exists None, st. repeat split; cbn; (done || lia).
  - destruct (fetch_scheme_spec url scheme p st Hp)
      as (r & st1 & Hrun & (Hs1 & Hr1) & Hsc).
    cbn [fetch_schemes]. destruct r as [resp|].
    + exists (Some resp), st1. split.
      * by apply (bind_step _ _ _ _ _ _ _ _ _ Hrun).
      * split; [|done]. split; [done|]. cbn [length]. lia.
    + destruct (IH st1) as (r & st2 & Hrun2 & (Hs2 & Hr2) & Hsc2).
      exists r, st2. split.
      * by apply (bind_step _ _ _ _ _ _ _ _ _ Hrun).
      * split; [|done]. split; [congruence|]. cbn [length]. lia.
Qed.

(** The sleeps of the outer loop: one after every round but the last. *)
Lemma fetch_attempts_spec url schemes max_retries attempts p st :
  urlparse chk url = Ok p ->
  exists body sc st' sl,
    fetch_attempts' url schemes max_retries attempts st
    = (Ok (body, sc), st', replicate sl (Sleep 1)) /\
    requests_between (Nat.min 1 (length schemes * length attempts))
                     (2 * length schemes * length attempts) st st' /\
    sl <= length (filter (fun a => a < max_retries - 1) attempts) /\
    (sc = None -> body = "").
Proof.
  intros Hp. revert st.
  induction attempts as [|attempt attempts IH]; intros st.
  - exists "", None, st, 0. cbn [length]. rewrite !Nat.mul_0_r.
    repeat split; (done || lia).
  - destruct (fetch_schemes_spec url schemes p st Hp)
      as (r & st1 & Hrun & (Hs1 & Hr1) & Hsc).
    cbn [fetch_attempts]. destruct r as [[body sc]|].
    + exists body, sc, st1, 0. split.
      * by apply (bind_step _ _ _ _ _ _ _ _ _ Hrun).
      * split; [split; [done | cbn [length]; nia] |]. split; [cbn; lia|].
        intros ->. by destruct (Hsc body None eq_refl).
    + destruct (IH st1) as (body & sc & st2 & sl & Hrun2 & (Hs2 & Hr2) & Hsl & Hb).
      rewrite filter_cons.
      destruct (decide (attempt < max_retries - 1)) as [Hlt|Hge].
      * exists body, sc, st2, (S sl). split.
        { apply (bind_step _ _ _ _ _ _ _ _ _ Hrun).
          destruct (Nat.ltb_spec attempt (max_retries - 1)); [|lia].
          by eapply (bind_step_eq (emit (Sleep 1))); [| exact Hrun2 |]. }
        split; [split; [congruence | cbn [length]; nia] |].
        split; [cbn [length]; lia | done].
      * exists body, sc, st2, sl. split.
        { apply (bind_step _ _ _ _ _ _ _ _ _ Hrun).
          destruct (Nat.ltb_spec attempt (max_retries - 1)); [lia|].
          by eapply (bind_step_eq pass); [| exact Hrun2 |]. }
        split; [split; [congruence | cbn [length]; nia] |]. done.
Qed.

Lemma fetch_unfold url p st :
  urlparse chk url = Ok p ->
  fetch' url st
  = fetch_attempts' url
      (if negb (truthy (scheme p)) then ["http" ; "https"] else [scheme p])
      3 [0 ; 1 ; 2] st.
Proof.
  intros Hp. unfold fetch, mbind, M_bind, lift. rewrite Hp. cbn [seq].
  by destruct (fetch_attempts _ _ _ _ _ _ _) as [[? ?] ?].
Qed.

Lemma fetch_schemes_first url scheme schemes st resp st1 :
  fetch_scheme' url scheme st = (Ok (Some resp), st1, []) ->
  fetch_schemes' url (scheme :: schemes) st = (Ok (Some resp), st1, []).
Proof. intros H. cbn [fetch_schemes]. by apply (bind_step _ _ _ _ _ _ _ _ _ H). Qed.

Lemma fetch_schemes_next url scheme schemes st st1 :
  fetch_scheme' url scheme st = (Ok None, st1, []) ->
  fetch_schemes' url (scheme :: schemes) st = fetch_schemes' url schemes st1.
Proof.
  intros H. cbn [fetch_schemes]. unfold mbind, M_bind. rewrite H.
  by destruct (fetch_schemes _ _ _ _ _) as [[? ?] ?].
Qed.

Lemma fetch_attempts_first url schemes max_retries attempt attempts st resp st1 :
  fetch_schemes' url schemes st = (Ok (Some resp), st1, []) ->
  fetch_attempts' url schemes max_retries (attempt :: attempts) st
  = (Ok resp, st1, []).
Proof. intros H. cbn [fetch_attempts]. by apply (bind_step _ _ _ _ _ _ _ _ _ H). Qed.

Lemma fetch_attempts_next url schemes max_retries attempt attempts st st1 :
  fetch_schemes' url schemes st = (Ok None, st1, []) ->
  fetch_attempts' url schemes max_retries (attempt :: attempts) st
  = let o := fetch_attempts' url schemes max_retries attempts st1 in
    (value_of o, state_of o,
     (if attempt <? max_retries - 1 then [Sleep 1] else []) ++ events_of o).
Proof.
  intros H. cbn [fetch_attempts]. unfold mbind, M_bind, emit, pass, mret, M_ret.
  rewrite H.
  destruct (attempt <? max_retries - 1);
    by destruct (fetch_attempts _ _ _ _ _ _ _) as [[? ?] ?].
Qed.

Lemma target_with_scheme p url scheme :
  truthy (UrlParse.scheme p) = true -> target_url_of p url scheme = url.
Proof. unfold target_url_of. by intros ->. Qed.

End Facts.

(** X1. For a URL that parses, [fetch] does not raise and leaves
    [seen_urls] alone; it sleeps one second at most twice, calls
    [requests.get] at least once and at most 12 times (6 when the URL has
    a scheme), and returns an empty body whenever it returns no status. *)
Theorem fetch_bounded chk requests_get url p st :
  urlparse chk url = Ok p ->
  exists body status_code st' sl,
    fetch chk requests_get url st
    = (Ok (body, status_code), st', replicate sl (Sleep 1)) /\
    sl <= 2 /\
    seen_urls st' = seen_urls st /\
    requests st + 1 <= requests st' <= requests st + 12 /\
    (truthy (scheme p) = true -> requests st' <= requests st + 6) /\
    (status_code = None -> body = "").
Proof.
  intros Hp. rewrite (fetch_unfold chk requests_get url p st Hp).
  destruct (fetch_attempts_spec chk requests_get url
              (if negb (truthy (scheme p)) then ["http" ; "https"]
               else [scheme p]) 3 [0 ; 1 ; 2] p st Hp)
    as (body & sc & st' & sl & Hrun & (Hs & Hr) & Hsl & Hb).
  exists body, sc, st', sl. split; [done|]. split; [exact Hsl|].
  split; [done|].
  destruct (truthy (scheme p)); cbn [negb length] in Hr; cbn in Hr;
    repeat split; (done || lia).
Qed.

Lemma fetch_bounded_witness :
  exists body status_code st' sl,
    fetch (fun _ => true) (fun _ _ _ => SSLError)
          "http://example.com/server-status" (mkState ∅ 0)
    = (Ok (body, status_code), st', replicate sl (Sleep 1)) /\
    sl <= 2 /\
    seen_urls st' = seen_urls (mkState ∅ 0) /\
    requests (mkState ∅ 0) + 1 <= requests st' <= requests (mkState ∅ 0) + 12 /\
    (truthy (scheme (mkParse "http" "example.com" "/server-status" "" "" ""))
     = true -> requests st' <= requests (mkState ∅ 0) + 6) /\
    (status_code = None -> body = "").
Proof.
  apply (fetch_bounded (fun _ => true) (fun _ _ _ => SSLError)
           "http://example.com/server-status"
           (mkParse "http" "example.com" "/server-status" "" "" "")).
  reflexivity.
Defined.

(** X2. The first response ends [fetch] at once: a response to the first
    request is returned after one request and no sleep; after an SSL
    error, the response to the same request without verification is
    returned after two. *)
Theorem fetch_first_response chk requests_get url p st text status_code :
  urlparse chk url = Ok p ->
  (requests_get (requests st) (target_url_of p url "http") true
   = Response text status_code ->
   fetch chk requests_get url st
   = (Ok (text, Some status_code),
      mkState (seen_urls st) (S (requests st)), [])) /\
  (requests_get (requests st) (target_url_of p url "http") true = SSLError ->
   requests_get (S (requests st)) (target_url_of p url "http") false
   = Response text status_code ->
   fetch chk requests_get url st
   = (Ok (text, Some status_code),
      mkState (seen_urls st) (S (S (requests st))), [])).
Proof.
  intros Hp. rewrite (fetch_unfold chk requests_get url p st Hp).
  split.
  - intros H1. apply fetch_attempts_first.
    destruct (truthy (scheme p)) eqn:Ht; cbn [negb];
      apply fetch_schemes_first;
      rewrite (fetch_scheme_run chk requests_get url _ p st Hp);
      rewrite ?(target_with_scheme p url _ Ht) in *; by rewrite H1.
  - intros H1 H2. apply fetch_attempts_first.
    destruct (truthy (scheme p)) eqn:Ht; cbn [negb];
      apply fetch_schemes_first;
      rewrite (fetch_scheme_run chk requests_get url _ p st Hp);
      rewrite ?(target_with_scheme p url _ Ht) in *; by rewrite H1, H2.
Qed.

Lemma fetch_first_response_witness :
  fetch (fun _ => true) sample_net "example.com" (mkState ∅ 0)
  = (Ok ("<html><title>Apache Status</title></html>", Some 200%Z),
     mkState ∅ 1, []).
Proof.
  apply (proj1 (fetch_first_response (fun _ => true) sample_net "example.com"
                  (mkParse "" "" "example.com" "" "" "") (mkState ∅ 0)
                  "<html><title>Apache Status</title></html>" 200%Z
                  eq_refl)).
  reflexivity.
Defined.

(** X3. A failed round is followed by one second of sleep and a new
    round: when the only request of the first round fails and the first
    request of the second round is answered, [fetch] returns that answer
    after two requests and one sleep. *)
Theorem fetch_retry chk requests_get url p st text status_code :
  urlparse chk url = Ok p -> truthy (scheme p) = true ->
  requests_get (requests st) url true = RequestException ->
  requests_get (S (requests st)) url true = Response text status_code ->
  fetch chk requests_get url st
  = (Ok (text, Some status_code),
     mkState (seen_urls st) (S (S (requests st))), [Sleep 1]).
Proof.
  intros Hp Ht H1 H2. rewrite (fetch_unfold chk requests_get url p st Hp).
  rewrite Ht. cbn [negb].
  rewrite (fetch_attempts_next chk requests_get url _ 3 0 _ st
             (mkState (seen_urls st) (S (requests st)))).
  2:{ rewrite fetch_schemes_next
        with (st1 := mkState (seen_urls st) (S (requests st))); [done|].
      rewrite (fetch_scheme_run chk requests_get url _ p st Hp).
      by rewrite (target_with_scheme p url _ Ht), H1. }
  rewrite (fetch_attempts_first chk requests_get url _ 3 1 _ _
             (text, Some status_code)
             (mkState (seen_urls st) (S (S (requests st))))); [done|].
  apply fetch_schemes_first.
  rewrite (fetch_scheme_run chk requests_get url _ p _ Hp).
  by rewrite (target_with_scheme p url _ Ht); cbn [requests]; rewrite H2.
Qed.

Lemma fetch_retry_witness :
  fetch (fun _ => true)
        (fun n _ _ => if n <? 1 then RequestException else Response "ok" 200)
        "http://example.com/server-status" (mkState ∅ 0)
  = (Ok ("ok", Some 200%Z), mkState ∅ 2, [Sleep 1]).
Proof.
  apply (fetch_retry (fun _ => true)
           (fun n _ _ => if n <? 1 then RequestException else Response "ok" 200)
           "http://example.com/server-status"
           (mkParse "http" "example.com" "/server-status" "" "" "")
           (mkState ∅ 0) "ok" 200%Z); reflexivity.
Defined.

(** X4. A URL without a scheme is requested as [http://] first and as
    [https://] next, in the same round: when the [http] request fails and
    the [https] request is answered, [fetch] returns that answer without
    sleeping. *)
Theorem fetch_https_after_http chk requests_get url p st text status_code :
  urlparse chk url = Ok p -> scheme p = "" ->
  requests_get (requests st) ("http://" +:+ netloc p +:+ path p) true
  = RequestException ->
  requests_get (S (requests st)) ("https://" +:+ netloc p +:+ path p) true
  = Response text status_code ->
  fetch chk requests_get url st
  = (Ok (text, Some status_code),
     mkState (seen_urls st) (S (S (requests st))), []).
Proof.
  intros Hp Hs H1 H2. rewrite (fetch_unfold chk requests_get url p st Hp).
  rewrite Hs. cbn [truthy negb].
  apply fetch_attempts_first.
  rewrite fetch_schemes_next
    with (st1 := mkState (seen_urls st) (S (requests st))).
  - apply fetch_schemes_first.
    rewrite (fetch_scheme_run chk requests_get url _ p _ Hp).
    unfold target_url_of. rewrite Hs. cbn [truthy requests seen_urls].
    change ("https" +:+ "://" +:+ netloc p +:+ path p)
      with ("https://" +:+ netloc p +:+ path p).
    by rewrite H2.
  - rewrite (fetch_scheme_run chk requests_get url _ p _ Hp).
    unfold target_url_of. rewrite Hs. cbn [truthy].
    change ("http" +:+ "://" +:+ netloc p +:+ path p)
      with ("http://" +:+ netloc p +:+ path p).
    by rewrite H1.
Qed.

Lemma fetch_https_after_http_witness :
  fetch (fun _ => true)
        (fun _ target_url _ =>
           if startswith "https://" target_url then Response "ok" 200
           else RequestException)
        "//example.com/server-status" (mkState ∅ 0)
  = (Ok ("ok", Some 200%Z), mkState ∅ 2, []).
Proof.
  apply (fetch_https_after_http (fun _ => true)
           (fun _ target_url _ =>
              if startswith "https://" target_url then Response "ok" 200
              else RequestException)
           "//example.com/server-status"
           (mkParse "" "example.com" "/server-status" "" "" "")
           (mkState ∅ 0) "ok" 200%Z); reflexivity.
Defined.

(** X5. For a URL with a scheme, [fetch] requests that URL and no other:
    two networks that answer alike for it give the same run. *)
Theorem fetch_requests_url_only chk net1 net2 url p st :
  urlparse chk url = Ok p -> truthy (scheme p) = true ->
  (forall n verify, net1 n url verify = net2 n url verify) ->
  fetch chk net1 url st = fetch chk net2 url st.
Proof.
  intros Hp Ht Hnet. rewrite !(fetch_unfold _ _ url p st Hp).
  assert (forall scheme st0,
            fetch_scheme chk net1 url scheme st0
            = fetch_scheme chk net2 url scheme st0) as Hscheme.
  { intros scheme st0. rewrite !(fetch_scheme_run _ _ url scheme p st0 Hp).
    by rewrite (target_with_scheme p url scheme Ht), !Hnet. }
  assert (forall schemes st0,
            fetch_schemes chk net1 url schemes st0
            = fetch_schemes chk net2 url schemes st0) as Hschemes.
  { induction schemes as [|scheme schemes IH]; intros st0; [done|].
    cbn [fetch_schemes]. unfold mbind, M_bind. rewrite Hscheme.
    destruct (fetch_scheme chk net2 url scheme st0) as [[[[resp|]|e] st1] ev1];
      [done | by rewrite IH | done]. }
  generalize [0 ; 1 ; 2]. intros attempts. revert st.
  induction attempts as [|attempt attempts IH]; intros st; [done|].
  cbn [fetch_attempts]. unfold mbind at 1 3, M_bind at 1 3. rewrite Hschemes.
  destruct (fetch_schemes chk net2 url _ st) as [[[[resp|]|e] st1] ev1];
    [done | | done].
  unfold mbind, M_bind. destruct (attempt <? 3 - 1); cbn; by rewrite IH.
Qed.

Lemma fetch_requests_url_only_witness :
  fetch (fun _ => true)
        (fun _ target_url _ =>
           if String.eqb target_url "http://a.org/server-status"
           then Response "ok" 200 else SSLError)
        "http://a.org/server-status" (mkState ∅ 0)
  = fetch (fun _ => true) (fun _ _ _ => Response "ok" 200)
          "http://a.org/server-status" (mkState ∅ 0).
Proof.
  apply (fetch_requests_url_only (fun _ => true) _ _
           "http://a.org/server-status"
           (mkParse "http" "a.org" "/server-status" "" "" "")
           (mkState ∅ 0)); [reflexivity..|].
  intros n verify. reflexivity.
Defined.

End FetchMore.

(** ** The request pattern, both ways *)

Module RegexMore.
Import PyStr Regex Tool PyStrFacts RegexFacts.

#[local] Arguments String.append !_ _ /.

Lemma app_assoc s t u : (s +:+ t) +:+ u = s +:+ t +:+ u.
Proof. induction s as [|a s IH]; simpl; [done | by rewrite IH]. Qed.

Lemma app_nil_r s : s +:+ "" = s.
Proof. induction s as [|a s IH]; simpl; [done | by rewrite IH]. Qed.

Lemma all_app p s t : all p (s +:+ t) = all p s && all p t.
Proof.
  induction s as [|a s IH]; simpl; [done|]. by rewrite IH, andb_assoc.
Qed.

(** The longest prefix of a class. *)
Lemma span_stops p s :
  exists a b, s = a +:+ b /\ all p a = true /\ stops p b.
Proof.
  induction s as [|c s (a & b & -> & Ha & Hb)].
  - by exists "", "".
  - destruct (p c) eqn:Hc.
    + exists (String c a), b. simpl. by rewrite Hc, Ha.
    + by exists "", (String c (a +:+ b)).
Qed.

(** What a successful [class+] consumed. *)
Lemma match_plus_inv p s k g :
  match_plus p s k = Some g ->
  exists s1 s2, s = s1 +:+ s2 /\ s1 <> "" /\ all p s1 = true /\ k s2 = Some g.
Proof.
  induction s as [|c s IH]; simpl; [done|].
  destruct (p c) eqn:Hc; [|done].
  destruct (match_plus p s k) as [g'|] eqn:Hm.
  - intros [= <-]. destruct (IH eq_refl) as (s1 & s2 & -> & _ & Hall & Hk).
    exists (String c s1), s2. simpl. by rewrite Hc, Hall.
  - intros Hk. exists (String c ""), s. simpl. by rewrite Hc.
Qed.

Lemma captured s t :
  slice_to (String.length (s +:+ t) - String.length t) (s +:+ t) = s.
Proof.
  rewrite length_app.
  replace (_ + _ - _) with (String.length s) by lia. apply slice_to_app.
Qed.

(** What a matching line is made of. *)
Lemma request_re_inv s method uri :
  re_match request_re s = Some [method ; uri] ->
  exists ws rest,
    s = method +:+ ws +:+ uri +:+ rest /\
    method <> "" /\ all word method = true /\
    ws <> "" /\ all space ws = true /\
    uri <> "" /\ all nonspace uri = true /\
    stops nonspace rest.
Proof.
  intros H0. pose proof H0 as H. revert H.
  unfold re_match at 1, request_re at 1. cbn [match_re]. intros H.
  apply match_plus_inv in H as (m & s2 & -> & Hm1 & Hm2 & H).
  rewrite captured in H.
  apply match_plus_inv in H as (ws & s3 & -> & Hw1 & Hw2 & H).
  apply match_plus_inv in H as (u & s4 & -> & Hu1 & Hu2 & H).
  rewrite captured in H.
  assert ([m ; u] = [method ; uri]) as [= -> ->].
  { destruct (match_re_const http_version s4 [u ; m]
                (fun _ g => Some (rev g)) [m ; u] eq_refl) as [E|E];
      [by right | rewrite E in H..]; by simplify_eq/=. }
  destruct (span_stops nonspace s4) as (a & b & -> & Ha & Hb).
  assert (a = "") as ->.
  { pose proof (request_re_match method ws (uri +:+ a) b) as Hfw.
    rewrite all_app, Hu2, Ha, (app_assoc uri a b), H0 in Hfw.
    assert (Some [method ; uri] = Some [method ; uri +:+ a]) as [= Heq].
    { apply Hfw; try done. by destruct uri. }
    rewrite <- (app_nil_r uri) in Heq at 1.
    by apply (inj (String.app uri)) in Heq. }
  by exists ws, b.
Qed.

(** X6. The request pattern matches a line with groups [method] and
    [uri] exactly when the line is a non-empty run of word characters
    ([method]), then white space, then a non-empty run of characters other
    than white space ([uri]), followed by nothing or by white space and
    any text. *)
Theorem request_re_iff s method uri :
  re_match request_re s = Some [method ; uri] <->
  exists ws rest,
    s = method +:+ ws +:+ uri +:+ rest /\
    method <> "" /\ all word method = true /\
    ws <> "" /\ all space ws = true /\
    uri <> "" /\ all nonspace uri = true /\
    stops nonspace rest.
Proof.
  split.
  - apply request_re_inv.
  - intros (ws & rest & -> & Hm1 & Hm2 & Hw1 & Hw2 & Hu1 & Hu2 & Hr).
    by apply request_re_match.
Qed.

End RegexMore.

(** ** Parser, in full *)

Module ParserMore.
Import PyStr Regex Tool PyStrFacts RegexFacts RegexMore ParserFacts.

Lemma is_valid_raise_inv parse html e :
  is_valid parse html = Raise e ->
  truthy html = true /\ soup_title (parse html) = Some None /\ e = TypeError.
Proof.
  unfold is_valid. destruct (truthy html); [|done]. cbn [negb].
  destruct (soup_title (parse html)) as [[s|]|]; [done| |done].
  by intros [= <-].
Qed.

(** X7. [is_valid] returns [True] exactly for a non-empty body whose
    title, if any, has a string and for which one of the four indicators
    holds; it raises exactly for a non-empty body with a title that has no
    string, and then [TypeError]; otherwise it returns [False]. *)
Theorem is_valid_cases parse html :
  (is_valid parse html = Ok true <->
     truthy html = true /\ soup_title (parse html) <> Some None /\
     match soup_title (parse html) with
     | Some (Some s) => contains "Apache Status" s
     | _ => false
     end
     || existsb (contains "Apache Server Status") (soup_h1 (parse html))
     || contains "<h1>Apache Server Status for" html
     || contains "<th>Srv</th><th>PID</th>" html = true) /\
  (forall e, is_valid parse html = Raise e <->
     truthy html = true /\ soup_title (parse html) = Some None /\
     e = TypeError).
Proof.
  split.
  - split; [|intros (Ht & Hn & Hi); by apply is_valid_true].
    unfold is_valid. destruct (truthy html); [|done]. cbn [negb].
    destruct (soup_title (parse html)) as [[s|]|]; [|done|];
      cbn [mbind result_bind existsb id]; intros [= H];
      rewrite orb_false_r, !orb_assoc in H;
      (split; [done|]); (split; [done|]); exact H.
  - intros e. split.
    + apply is_valid_raise_inv.
    + intros (Ht & Hs & ->). unfold is_valid. by rewrite Ht, Hs.
Qed.

Lemma extract_row_inv row e :
  extract_row row = Some e ->
  15 <= length row /\
  truthy (strip (nth 13 row "")) = true /\
  exists uri,
    re_match request_re (strip (nth 14 row ""))
    = Some [entry_method e ; uri] /\
    e = mkEntry (strip (nth 1 row "")) (entry_method e)
                ("http://" +:+ strip (nth 13 row "") +:+ uri).
Proof.
  unfold extract_row.
  destruct (Nat.ltb_spec (length row) 15) as [|Hlen]; [done|].
  destruct (re_match request_re _) as [[|m [|u [|? ?]]]|]; try done.
  destruct (truthy (strip (nth 13 row ""))) eqn:Hv; [|done].
  destruct (truthy u); [|done]. cbn [andb].
  intros [= <-]. split; [done|]. split; [done|]. by exists u.
Qed.

(** X8. Every record returned by [extract_urls] has a non-empty method
    made of word characters and the URL [http://] + vhost + URI, with a
    non-empty vhost and a non-empty URI free of white space. *)
Theorem extract_urls_entries parse html e :
  e ∈ extract_urls parse html ->
  entry_method e <> "" /\ all word (entry_method e) = true /\
  exists vhost uri,
    entry_url e = "http://" +:+ vhost +:+ uri /\
    vhost <> "" /\ uri <> "" /\ all nonspace uri = true.
Proof.
  unfold extract_urls. destruct (soup_tables (parse html)) as [|table tables].
  - by intros ?%elem_of_nil.
  - intros (row & _ & Hrow)%list_elem_of_omap.
    apply extract_row_inv in Hrow as (_ & Hv & uri & Hre & He).
    apply request_re_inv in Hre
      as (ws & rest & _ & Hm1 & Hm2 & _ & _ & Hu1 & Hu2 & _).
    split; [done|]. split; [done|].
    exists (strip (nth 13 row "")), uri. rewrite He at 1.
    split; [done|]. split; [|done]. by destruct (strip (nth 13 row "")).
Qed.

Lemma extract_urls_entries_witness :
  entry_method (mkEntry "123" "GET" "http://example.com/foo") <> "" /\
  all word (entry_method (mkEntry "123" "GET" "http://example.com/foo")) = true /\
  exists vhost uri,
    entry_url (mkEntry "123" "GET" "http://example.com/foo")
    = "http://" +:+ vhost +:+ uri /\
    vhost <> "" /\ uri <> "" /\ all nonspace uri = true.
Proof.
  apply (extract_urls_entries (fun _ => sample_soup) "x").
  vm_compute. apply list_elem_of_here.
Defined.

Lemma omap_extract_long (rows : list (list string)) :
  omap extract_row (filter (fun row => 15 <= length row) rows)
  = omap extract_row rows.
Proof.
  induction rows as [|row rows IH]; [done|]. rewrite filter_cons.
  destruct (decide (15 <= length row)) as [Hlen|Hlen]; cbn [omap list_omap].
  - by rewrite IH.
  - rewrite extract_row_short by lia. exact IH.
Qed.

Lemma length_omap_le {A B} (f : A -> option B) (l : list A) :
  length (omap f l) <= length l.
Proof.
  induction l as [|x l IH]; [done|]. cbn [omap list_omap].
  destruct (f x); cbn [length]; lia.
Qed.

(** X9. [extract_urls] reads the rows after the first of the first table
    only, and of those the rows with at least 15 cells: with no table the
    result is empty, rows with fewer cells give nothing, and there are at
    most as many records as rows of 15 cells or more. *)
Theorem extract_urls_rows parse html :
  match soup_tables (parse html) with
  | [] => extract_urls parse html = []
  | table :: _ =>
      extract_urls parse html
      = omap extract_row (filter (fun row => 15 <= length row) (drop 1 table)) /\
      length (extract_urls parse html)
      <= length (filter (fun row => 15 <= length row) (drop 1 table))
  end.
Proof.
  unfold extract_urls. destruct (soup_tables (parse html)) as [|table tables];
    [done|].
  rewrite <- omap_extract_long. split; [done | apply length_omap_le].
Qed.

End ParserMore.

(** ** clean_url, scheme and host *)

Module NormalizerMore.
Import PyStr UrlParse Tool PyStrFacts UrlParseFacts NormalizerFacts.

Lemma urlsplit_raise chk url e : urlsplit chk url = Raise e -> e = ValueError.
Proof.
  unfold urlsplit. destruct (split_scheme _) as [sch rest].
  destruct (String.eqb (slice_to 2 rest) "//").
  - destruct (splitnetloc rest 2) as [nl rest'].
    destruct (netloc_ok chk nl); [|by intros [= <-]]. simpl.
    repeat match goal with
           | |- context [if ?b then _ else _] => destruct b
           | |- context [let '(_, _) := ?x in _] => destruct x
           end; done.
  - simpl.
    repeat match goal with
           | |- context [if ?b then _ else _] => destruct b
           | |- context [let '(_, _) := ?x in _] => destruct x
           end; done.
Qed.

Lemma urlparse_raise chk url e : urlparse chk url = Raise e -> e = ValueError.
Proof.
  unfold urlparse. destruct (urlsplit chk url) as [r|e'] eqn:Hr.
  - simpl. by destruct (if _ && _ then _ else _).
  - apply urlsplit_raise in Hr as ->. by intros [= <-].
Qed.

Lemma clean_url_raise chk raw e : clean_url chk raw = Raise e -> e = ValueError.
Proof.
  unfold clean_url. destruct (urlparse chk raw) as [p|e'] eqn:Hp.
  - cbn [mbind result_bind]. destruct (negb (truthy (scheme p))).
    + destruct (urlparse chk ("http://" +:+ raw)) as [q|e'] eqn:Hq.
      * cbn [mbind result_bind]. by destruct (negb _).
      * apply urlparse_raise in Hq as ->. by intros [= <-].
    + cbn [mbind result_bind]. by destruct (negb _).
  - apply urlparse_raise in Hp as ->. by intros [= <-].
Qed.

(** X10. A target that parses with a scheme is normalized without an
    exception, and the result has the scheme and the network location
    (host and port) of the target. *)
Theorem clean_url_keeps_host chk x p :
  urlparse chk x = Ok p -> truthy (scheme p) = true ->
  exists u q,
    clean_url chk x = Ok u /\ urlparse chk u = Ok q /\
    scheme q = scheme p /\ netloc q = netloc p.
Proof.
  intros Hp Ht. unfold clean_url. rewrite Hp. cbn [mbind result_bind].
  rewrite Ht. cbn [negb mbind result_bind].
  destruct (endswith "/server-status" (path p)); cbn [negb].
  - by exists x, p.
  - destruct (urlparse_inv chk x p Hp) as [Hwf Hnl].
    eexists _, _. split; [reflexivity|].
    split; [apply urlparse_status; try done; by destruct (scheme p) | done].
Qed.

Lemma clean_url_keeps_host_witness :
  exists u q,
    clean_url (fun _ => true) "https://example.com:8443/app?x=1" = Ok u /\
    urlparse (fun _ => true) u = Ok q /\
    scheme q = scheme (mkParse "https" "example.com:8443" "/app" "" "x=1" "") /\
    netloc q = netloc (mkParse "https" "example.com:8443" "/app" "" "x=1" "").
Proof.
  apply (clean_url_keeps_host (fun _ => true)
           "https://example.com:8443/app?x=1"
           (mkParse "https" "example.com:8443" "/app" "" "x=1" ""));
    reflexivity.
Defined.

(** X11. A target without a scheme is normalized to an [http] URL. *)
Theorem clean_url_default_http chk x p u :
  urlparse chk x = Ok p -> scheme p = "" -> clean_url chk x = Ok u ->
  exists q, urlparse chk u = Ok q /\ scheme q = "http".
Proof.
  intros Hp Hs. unfold clean_url. rewrite Hp. cbn [mbind result_bind].
  rewrite Hs. cbn [truthy negb].
  destruct (urlparse chk ("http://" +:+ x)) as [q|] eqn:Hq; [|done].
  cbn [mbind result_bind].
  assert (scheme q = "http") as Hsq.
  { change ("http://" +:+ x) with ("http" +:+ String ":" ("//" +:+ x)) in Hq.
    by apply urlparse_scheme in Hq; [|apply scheme_wf_http|]. }
  destruct (endswith "/server-status" (path q)); cbn [negb]; intros [= <-].
  - by exists q.
  - destruct (urlparse_inv chk _ q Hq) as [Hwf Hnl].
    eexists. split; [apply urlparse_status; try done|done].
    by rewrite Hsq.
Qed.

Lemma clean_url_default_http_witness :
  exists q, urlparse (fun _ => true) "http://example.com/server-status" = Ok q /\
            scheme q = "http".
Proof.
  apply (clean_url_default_http (fun _ => true) "example.com"
           (mkParse "" "" "example.com" "" "" "")); reflexivity.
Defined.

End NormalizerMore.

(** ** process_url, case by case *)

Module ControllerMore.
Import PyStr UrlParse Tool MonadFacts SeqFacts RunFacts FetchMore
       NormalizerFacts NormalizerMore.

Lemma found_urls_sleeps n : found_urls (replicate n (Sleep 1)) = [].
Proof. induction n as [|n IH]; [done | exact IH]. Qed.

Lemma saved_lines_sleeps n : saved_lines (replicate n (Sleep 1)) = [].
Proof. induction n as [|n IH]; [done | exact IH]. Qed.

(** The loop over the entries: it never raises, makes no request, adds
    the URLs of the entries to [seen_urls] and announces, in their order,
    those that were not in it. *)
Lemma report_entries_spec entries output_file st :
  let o := report_entries entries output_file st in
  value_of o = Ok tt /\
  requests (state_of o) = requests st /\
  seen_urls (state_of o)
  = seen_urls st ∪ list_to_set (entry_url <$> entries) /\
  found_urls (events_of o) `sublist_of` (entry_url <$> entries) /\
  (forall x, x ∈ found_urls (events_of o) <->
             x ∈ (entry_url <$> entries) /\ x ∉ seen_urls st) /\
  saved_lines (events_of o)
  = if truthy_opt output_file then found_urls (events_of o) else [].
Proof.
  revert st. induction entries as [|entry entries IH]; intros st.
  - cbv zeta. cbn [report_entries]. unfold pass, mret, M_ret.
    unfold value_of, state_of, events_of. cbn [fst snd fmap list_fmap].
    split; [done|]. split; [done|].
    split; [by rewrite list_to_set_nil, (right_id_L ∅ (∪))|].
    split; [done|]. split; [|by destruct (truthy_opt output_file)].
    intros x. split; [by intros ?%elem_of_nil | by intros [?%elem_of_nil _]].
  - cbn [report_entries]. cbv zeta. rewrite seen_mem_bind.
    destruct (bool_decide (entry_url entry ∈ seen_urls st)) eqn:Hseen;
      cbn [negb].
    + apply bool_decide_eq_true in Hseen.
      assert ((pass;; report_entries entries output_file) st
              = report_entries entries output_file st) as ->.
      { unfold mbind, M_bind, pass, mret, M_ret.
        by destruct (report_entries _ _ _) as [[? ?] ?]. }
      destruct (IH st) as (Hv & Hr & Hs & Hsub & Hin & Hsv).
      split; [done|]. split; [done|]. split; [|split; [|split; [|done]]].
      * rewrite Hs. cbn [fmap list_fmap]. rewrite list_to_set_cons.
        apply set_eq. intros x. rewrite !elem_of_union, elem_of_singleton.
        split; [tauto|]. intros [?|[->|?]]; tauto.
      * cbn [fmap list_fmap]. by apply sublist_cons.
      * intros x. rewrite Hin. cbn [fmap list_fmap]. rewrite elem_of_cons.
        split; [tauto|]. intros [[->|Hx] Hn]; [done | tauto].
    + apply bool_decide_eq_false in Hseen.
      destruct (report_new entry output_file st Hseen)
        as (saved & Hrun & Hs & Hf).
      set (st1 := mkState ({[entry_url entry]} ∪ seen_urls st) (requests st))
        in *.
      destruct (IH st1) as (Hv & Hr & Hs' & Hsub & Hin & Hsv).
      destruct (report_entries entries output_file st1) as [[r st2] ev2] eqn:E.
      unfold value_of, state_of, events_of in *. cbn [fst snd] in *.
      subst r. rewrite (bind_step _ _ _ _ _ _ _ _ _ Hrun E). cbn [fst snd].
      subst st1. cbn [seen_urls requests] in *.
      split; [done|]. split; [done|].
      change (found_urls ((?e :: saved) ++ ?evs))
        with (entry_url entry :: found_urls (saved ++ evs)).
      change (saved_lines ((?e :: saved) ++ ?evs))
        with (saved_lines (saved ++ evs)).
      rewrite found_urls_app, saved_lines_app, Hf. cbn [app].
      split; [|split; [|split]].
      * rewrite Hs'. cbn [fmap list_fmap seen_urls]. rewrite list_to_set_cons.
        apply set_eq. intros x. rewrite !elem_of_union, elem_of_singleton.
        tauto.
      * cbn [fmap list_fmap]. by apply sublist_skip.
      * intros x. rewrite elem_of_cons, Hin. cbn [fmap list_fmap seen_urls].
        rewrite elem_of_cons, not_elem_of_union, not_elem_of_singleton.
        destruct (decide (x = entry_url entry)) as [->|Hne]; [tauto|].
        tauto.
      * rewrite Hsv.
        destruct output_file as [[|c file]|]; cbn [truthy_opt truthy] in *;
          cbn in Hrun; injection Hrun as <-; done.
Qed.

Section Facts.
Variable chk : string -> bool.
Variable requests_get : nat -> string -> bool -> outcome.
Variable parse : string -> Soup.

Abbreviation process_url' := (process_url chk requests_get parse).

(** [process_url] after a normalization and a fetch that are known. *)
Lemma process_url_run raw output_file st u html status_code st1 ev1 :
  clean_url chk raw = Ok u ->
  fetch chk requests_get u st = (Ok (html, status_code), st1, ev1) ->
  process_url' raw output_file st =
    match is_valid parse html with
    | Raise e => (Raise e, st1, Checking u :: ev1)
    | Ok false =>
        (Ok false, st1,
         Checking u :: ev1 ++ [NotVulnerable (status_or_none status_code)])
    | Ok true =>
        let entries := extract_urls parse html in
        let o := report_entries entries output_file st1 in
        (Ok true, state_of o,
         Checking u :: ev1 ++
         (if bool_decide (entries = []) then [VulnerableNoUrls] else []) ++
         events_of o ++
         (if bool_decide (entries = []) then []
          else [VulnerableFound (length entries)]))
    end.
Proof.
  intros Hu Hf. unfold process_url.
  destruct (is_valid parse html) as [[|]|e] eqn:Hv.
  - cbv zeta.
    destruct (report_entries_spec (extract_urls parse html) output_file st1)
      as (Hval & _).
    destruct (report_entries _ output_file st1) as [[r st2] ev2] eqn:E.
    unfold value_of, state_of, events_of in *. cbn [fst snd] in *. subst r.
    eapply bind_step_eq; [unfold lift; by rewrite Hu | | reflexivity].
    eapply bind_step_eq; [reflexivity | | reflexivity].
    eapply bind_step_eq; [exact Hf | | reflexivity].
    eapply bind_step_eq; [unfold lift; by rewrite Hv | | reflexivity].
    cbn [negb].
    destruct (bool_decide (extract_urls parse html = []));
      (eapply bind_step_eq; [reflexivity | | reflexivity]);
      (eapply bind_step_eq; [exact E | | reflexivity]);
      reflexivity.
  - eapply bind_step_eq; [unfold lift; by rewrite Hu | | reflexivity].
    eapply bind_step_eq; [reflexivity | | reflexivity].
    eapply bind_step_eq; [exact Hf | | reflexivity].
    eapply bind_step_eq; [unfold lift; by rewrite Hv | | reflexivity].
    reflexivity.
  - eapply bind_step_eq; [unfold lift; by rewrite Hu | | reflexivity].
    eapply bind_step_eq; [reflexivity | | reflexivity].
    eapply bind_step_eq; [exact Hf | | by rewrite app_nil_r].
    unfold mbind, M_bind, lift. by rewrite Hv.
Qed.

(** The fetch of a normalized URL, as [process_url] sees it. *)
Lemma fetch_clean raw u st :
  clean_url chk raw = Ok u ->
  exists html status_code st1 sl,
    fetch chk requests_get u st
    = (Ok (html, status_code), st1, replicate sl (Sleep 1)) /\
    seen_urls st1 = seen_urls st.
Proof.
  intros Hu. destruct (clean_url_parse chk raw u Hu) as (q & Hq & _).
  rewrite (fetch_unfold chk requests_get u q st Hq).
  destruct (fetch_attempts_spec chk requests_get u
              (if negb (truthy (scheme q)) then ["http" ; "https"]
               else [scheme q]) 3 [0 ; 1 ; 2] q st Hq)
    as (html & sc & st1 & sl & Hf & (Hs & _) & _).
  by exists html, sc, st1, sl.
Qed.

Lemma process_url_unclean raw output_file st e :
  clean_url chk raw = Raise e ->
  process_url' raw output_file st = (Raise e, st, []).
Proof.
  intros Hu. unfold process_url. apply bind_raise. unfold lift. by rewrite Hu.
Qed.

End Facts.

(** X12. The verdict of [process_url] is that of [is_valid] on the body
    fetched for the normalized URL, exception included: the extraction
    and the number of records have no part in it. *)
Theorem process_url_verdict chk requests_get parse raw output_file st u
    html status_code :
  clean_url chk raw = Ok u ->
  value_of (fetch chk requests_get u st) = Ok (html, status_code) ->
  value_of (process_url chk requests_get parse raw output_file st)
  = is_valid parse html.
Proof.
  intros Hu Hv.
  rewrite (process_url_run chk requests_get parse raw output_file st u html
             status_code (state_of (fetch chk requests_get u st))
             (events_of (fetch chk requests_get u st)) Hu).
  - by destruct (is_valid parse html) as [[|]|e].
  - by rewrite (run_eta (fetch chk requests_get u st)) at 1; rewrite Hv.
Qed.

Lemma process_url_verdict_witness :
  value_of (process_url (fun _ => true) sample_net
              (fun _ => mkSoup (Some (Some "Apache Status")) [] [])
              "example.com" None (mkState ∅ 0))
  = is_valid (fun _ => mkSoup (Some (Some "Apache Status")) [] [])
             "<html><title>Apache Status</title></html>".
Proof.
  apply (process_url_verdict (fun _ => true) sample_net _ "example.com" None
           (mkState ∅ 0) "http://example.com/server-status"
           "<html><title>Apache Status</title></html>" (Some 200%Z));
    reflexivity.
Defined.

(** X13. Unless [process_url] returns [True], it leaves [seen_urls] as it
    was and announces and saves nothing. *)
Theorem process_url_not_valid chk requests_get parse raw output_file st :
  let o := process_url chk requests_get parse raw output_file st in
  value_of o <> Ok true ->
  seen_urls (state_of o) = seen_urls st /\
  found_urls (events_of o) = [] /\ saved_lines (events_of o) = [].
Proof.
  cbv zeta. destruct (clean_url chk raw) as [u|e] eqn:Hu.
  - destruct (fetch_clean chk requests_get raw u st Hu)
      as (html & sc & st1 & sl & Hf & Hs).
    rewrite (process_url_run chk requests_get parse raw output_file st u html
               sc st1 _ Hu Hf).
    destruct (is_valid parse html) as [[|]|e]; [done| |]; intros _;
      unfold state_of, events_of; cbn [fst snd];
      (split; [done|]);
      change (found_urls (Checking u :: ?evs)) with (found_urls evs);
      change (saved_lines (Checking u :: ?evs)) with (saved_lines evs);
      rewrite ?found_urls_app, ?saved_lines_app, found_urls_sleeps,
        saved_lines_sleeps; done.
  - by rewrite (process_url_unclean chk requests_get parse raw output_file st e Hu).
Qed.

Lemma process_url_not_valid_witness :
  seen_urls (state_of (process_url (fun _ => true) sample_net
                         (fun _ => mkSoup None [] [[ [] ; sample_row ]])
                         "example.com" (Some "urls.txt")
                         (mkState {[ "http://a.org/" ]} 0)))
  = seen_urls (mkState {[ "http://a.org/" ]} 0) /\
  found_urls (events_of (process_url (fun _ => true) sample_net
                           (fun _ => mkSoup None [] [[ [] ; sample_row ]])
                           "example.com" (Some "urls.txt")
                           (mkState {[ "http://a.org/" ]} 0))) = [] /\
  saved_lines (events_of (process_url (fun _ => true) sample_net
                            (fun _ => mkSoup None [] [[ [] ; sample_row ]])
                            "example.com" (Some "urls.txt")
                            (mkState {[ "http://a.org/" ]} 0))) = [].
Proof.
  apply (process_url_not_valid (fun _ => true) sample_net
           (fun _ => mkSoup None [] [[ [] ; sample_row ]])
           "example.com" (Some "urls.txt") (mkState {[ "http://a.org/" ]} 0)).
  vm_compute. discriminate.
Defined.

(** X14. When the fetched body is valid, [process_url] returns [True];
    [seen_urls] becomes its union with the URLs of the extracted records,
    and the URLs announced are, in the order of the records, exactly
    those that were not in [seen_urls] before. *)
Theorem process_url_valid chk requests_get parse raw output_file st u
    html status_code :
  clean_url chk raw = Ok u ->
  value_of (fetch chk requests_get u st) = Ok (html, status_code) ->
  is_valid parse html = Ok true ->
  let o := process_url chk requests_get parse raw output_file st in
  let urls := entry_url <$> extract_urls parse html in
  value_of o = Ok true /\
  seen_urls (state_of o) = seen_urls st ∪ list_to_set urls /\
  found_urls (events_of o) `sublist_of` urls /\
  (forall x, x ∈ found_urls (events_of o) <-> x ∈ urls /\ x ∉ seen_urls st).
Proof.
  intros Hu Hv Hvalid. cbv zeta.
  destruct (fetch_clean chk requests_get raw u st Hu)
    as (html' & sc' & st1 & sl & Hf & Hs).
  rewrite Hf in Hv. injection Hv as -> ->.
  rewrite (process_url_run chk requests_get parse raw output_file st u html
             status_code st1 _ Hu Hf), Hvalid. cbv zeta.
  destruct (report_entries_spec (extract_urls parse html) output_file st1)
    as (_ & _ & Hseen & Hsub & Hin & _).
  unfold value_of, state_of, events_of in *. cbn [fst snd] in *.
  assert (forall evs,
    found_urls (Checking u :: replicate sl (Sleep 1) ++
      (if bool_decide (extract_urls parse html = [])
       then [VulnerableNoUrls] else []) ++ evs ++
      (if bool_decide (extract_urls parse html = []) then []
       else [VulnerableFound (length (extract_urls parse html))]))
    = found_urls evs) as ->.
  { intros evs.
    change (found_urls (Checking u :: ?l)) with (found_urls l).
    rewrite !found_urls_app, found_urls_sleeps.
    destruct (bool_decide _); cbn; by rewrite app_nil_r. }
  rewrite Hs in *. done.
Qed.

Lemma process_url_valid_witness :
  value_of (process_url (fun _ => true) sample_net (fun _ => sample_soup)
              "example.com" None (mkState ∅ 0)) = Ok true /\
  seen_urls (state_of (process_url (fun _ => true) sample_net
                         (fun _ => sample_soup) "example.com" None
                         (mkState ∅ 0)))
  = seen_urls (mkState ∅ 0)
    ∪ list_to_set (entry_url <$>
        extract_urls (fun _ => sample_soup)
                     "<html><title>Apache Status</title></html>") /\
  found_urls (events_of (process_url (fun _ => true) sample_net
                           (fun _ => sample_soup) "example.com" None
                           (mkState ∅ 0)))
  `sublist_of` (entry_url <$>
     extract_urls (fun _ => sample_soup)
                  "<html><title>Apache Status</title></html>") /\
  (forall x,
     x ∈ found_urls (events_of (process_url (fun _ => true) sample_net
                                  (fun _ => sample_soup) "example.com" None
                                  (mkState ∅ 0)))
     <-> x ∈ (entry_url <$>
           extract_urls (fun _ => sample_soup)
                        "<html><title>Apache Status</title></html>")
         /\ x ∉ seen_urls (mkState ∅ 0)).
Proof.
  apply (process_url_valid (fun _ => true) sample_net (fun _ => sample_soup)
           "example.com" None (mkState ∅ 0)
           "http://example.com/server-status"
           "<html><title>Apache Status</title></html>" (Some 200%Z));
    reflexivity.
Defined.

(** X15. [process_url] raises in two ways only: [ValueError] from
    [clean_url], before anything is printed or requested, and [TypeError]
    from [is_valid] on the fetched body. *)
Theorem process_url_raises chk requests_get parse raw output_file st e :
  value_of (process_url chk requests_get parse raw output_file st) = Raise e ->
  (e = ValueError /\ clean_url chk raw = Raise ValueError /\
   process_url chk requests_get parse raw output_file st
   = (Raise ValueError, st, [])) \/
  (e = TypeError /\
   exists u html status_code,
     clean_url chk raw = Ok u /\
     value_of (fetch chk requests_get u st) = Ok (html, status_code) /\
     is_valid parse html = Raise TypeError).
Proof.
  destruct (clean_url chk raw) as [u|e'] eqn:Hu.
  - destruct (fetch_clean chk requests_get raw u st Hu)
      as (html & sc & st1 & sl & Hf & Hs).
    rewrite (process_url_run chk requests_get parse raw output_file st u html
               sc st1 _ Hu Hf).
    destruct (is_valid parse html) as [[|]|e'] eqn:Hv; [done..|].
    intros [= ->]. right.
    destruct (ParserMore.is_valid_raise_inv parse html e Hv) as (_ & _ & ->).
    split; [done|]. exists u, html, sc. by rewrite Hf.
  - rewrite (process_url_unclean chk requests_get parse raw output_file st e' Hu).
    intros [= ->]. left. apply clean_url_raise in Hu as He. by subst.
Qed.

Lemma process_url_raises_witness :
  (ValueError = ValueError /\
   clean_url (fun _ => true) "[" = Raise ValueError /\
   process_url (fun _ => true) sample_net (fun _ => sample_soup) "[" None
               (mkState ∅ 0)
   = (Raise ValueError, mkState ∅ 0, [])) \/
  (ValueError = TypeError /\
   exists u html status_code,
     clean_url (fun _ => true) "[" = Ok u /\
     value_of (fetch (fun _ => true) sample_net u (mkState ∅ 0))
     = Ok (html, status_code) /\
     is_valid (fun _ => sample_soup) html = Raise TypeError).
Proof.
  apply (process_url_raises (fun _ => true) sample_net (fun _ => sample_soup)
           "[" None (mkState ∅ 0) ValueError).
  reflexivity.
Defined.

End ControllerMore.

(** ** The loop of main, for every target *)

Module LoopFacts.
Import PyStr UrlParse Tool MonadFacts SeqFacts RunFacts ControllerMore.

Section Loop.
Variable chk : string -> bool.
Variable requests_get : nat -> string -> bool -> outcome.
Variable parse : string -> Soup.
Variable output_file : option string.
Context (P : state -> list event -> state -> Prop) (HP : composable P).
Hypothesis Hemit :
  forall e st, in_loop e = true -> found_urls [e] = [] ->
               saved_lines [e] = [] -> P st [e] st.
Hypothesis Hget : forall st n, P st [] (mkState (seen_urls st) n).
Hypothesis Hreport :
  forall entries, always P (report_entries entries output_file).

Lemma loop_emit e :
  in_loop e = true -> found_urls [e] = [] -> saved_lines [e] = [] ->
  always P (emit e).
Proof. intros H1 H2 H3 st. by apply Hemit. Qed.

Lemma loop_fetch_scheme url scheme :
  always P (fetch_scheme chk requests_get url scheme).
Proof.
  unfold fetch_scheme. apply always_bind; [done | by apply always_lift |].
  intros p. apply always_bind; [done | intros st; apply Hget |].
  intros [text sc| |]; [by apply always_ret | | by apply always_ret].
  apply always_bind; [done | intros st; apply Hget |].
  intros [text sc| |]; by apply always_ret.
Qed.

Lemma loop_fetch_schemes url schemes :
  always P (fetch_schemes chk requests_get url schemes).
Proof.
  induction schemes as [|scheme schemes IH]; cbn [fetch_schemes].
  - by apply always_ret.
  - apply always_bind; [done | apply loop_fetch_scheme |].
    intros [resp|]; [by apply always_ret | done].
Qed.

Lemma loop_fetch url : always P (fetch chk requests_get url).
Proof.
  unfold fetch. apply always_bind; [done | by apply always_lift |].
  intros p. generalize (seq 0 3). intros attempts.
  induction attempts as [|attempt attempts IH]; cbn [fetch_attempts].
  - by apply always_ret.
  - apply always_bind; [done | apply loop_fetch_schemes |].
    intros [resp|]; [by apply always_ret|].
    apply always_bind; [done | | done].
    apply always_if; [by apply loop_emit | by apply always_pass].
Qed.

Lemma loop_process_url url :
  always P (process_url chk requests_get parse url output_file).
Proof.
  unfold process_url. apply always_bind; [done | by apply always_lift |].
  intros u. apply always_bind; [done | by apply loop_emit |].
  intros _. apply always_bind; [done | apply loop_fetch |].
  intros [html status_code].
  apply always_bind; [done | by apply always_lift |].
  intros valid. apply always_if.
  - apply always_bind; [done | by apply loop_emit |].
    intros _. by apply always_ret.
  - apply always_bind; [done | |].
    { apply always_if; [by apply loop_emit | by apply always_pass]. }
    intros _. apply always_bind; [done | apply Hreport |].
    intros _. apply always_bind; [done | |].
    { apply always_if; [by apply always_pass | by apply loop_emit]. }
    intros _. by apply always_ret.
Qed.

Lemma loop_countdown j : always P (countdown j).
Proof.
  induction j as [|j IH]; cbn [countdown]; [by apply always_pass|].
  apply always_bind; [done | by apply loop_emit |].
  intros _. apply always_bind; [done | by apply loop_emit |]. done.
Qed.

Lemma loop_main_loop args n urls vulnerable_count :
  arg_output args = output_file ->
  always P (main_loop chk requests_get parse args n urls vulnerable_count).
Proof.
  intros Hout. revert vulnerable_count.
  induction urls as [|[i url] urls IH]; intros vulnerable_count;
    cbn [main_loop].
  - by apply always_ret.
  - apply always_bind; [done | by apply loop_emit |].
    intros _. rewrite Hout.
    apply always_bind; [done | apply loop_process_url |].
    intros vulnerable. apply always_bind; [done | | intros _; apply IH].
    apply always_if.
    + apply always_bind; [done | apply loop_countdown |].
      intros _. by apply loop_emit.
    + apply always_if; [by apply loop_emit | by apply always_pass].
Qed.

End Loop.

(** *** The three relations kept by the loop *)

Lemma loop_only_composable : composable loop_only.
Proof.
  split; [by constructor|]. unfold loop_only.
  intros _ ev1 _ ev2 _ H1 H2. by apply Forall_app.
Qed.


Lemma seen_exact_composable : composable seen_exact.
Proof.
  split; unfold seen_exact.
  - intros st. change (found_urls []) with (@nil string).
    by rewrite list_to_set_nil, (right_id_L ∅ (∪)).
  - intros st ev1 st1 ev2 st2 H1 H2.
    by rewrite H2, H1, found_urls_app, list_to_set_app_L, (assoc_L (∪)).
Qed.

Lemma report_entries_loop_only entries output_file :
  always loop_only (report_entries entries output_file).
Proof.
  pose proof loop_only_composable as HP.
  induction entries as [|entry entries IH]; cbn [report_entries].
  - by apply always_pass.
  - apply always_bind; [done | by intros st; constructor |].
    intros seen. apply always_bind; [done | | done].
    apply always_if; [|by apply always_pass].
    apply always_bind; [done | by intros st; constructor |].
    intros _. apply always_bind; [done | by intros st; repeat constructor |].
    intros _. unfold save_line.
    destruct output_file as [file|]; [|by apply always_pass].
    apply always_if; [by intros st; repeat constructor | by apply always_pass].
Qed.


Lemma report_entries_seen_exact entries output_file :
  always seen_exact (report_entries entries output_file).
Proof.
  intros st.
  destruct (report_entries_spec entries output_file st)
    as (_ & _ & Hs & _ & Hin & _).
  unfold seen_exact. rewrite Hs. apply set_eq. intros x.
  rewrite !elem_of_union, !elem_of_list_to_set, Hin.
  destruct (decide (x ∈ seen_urls st)); tauto.
Qed.

Section Instances.
Variable chk : string -> bool.
Variable requests_get : nat -> string -> bool -> outcome.
Variable parse : string -> Soup.

Lemma main_loop_loop_only args n urls vulnerable_count :
  always loop_only
    (main_loop chk requests_get parse args n urls vulnerable_count).
Proof.
  apply (loop_main_loop chk requests_get parse (arg_output args));
    [apply loop_only_composable | | by constructor | | done].
  - intros e st He _ _. by repeat constructor.
  - intros entries. apply report_entries_loop_only.
Qed.


Lemma main_loop_seen_exact args n urls vulnerable_count :
  always seen_exact
    (main_loop chk requests_get parse args n urls vulnerable_count).
Proof.
  apply (loop_main_loop chk requests_get parse (arg_output args));
    [apply seen_exact_composable | | | | done].
  - intros e st _ Hf _. unfold seen_exact. rewrite Hf.
    by rewrite list_to_set_nil, (right_id_L ∅ (∪)).
  - intros st n'. unfold seen_exact. change (found_urls []) with (@nil string).
    cbn [seen_urls]. by rewrite list_to_set_nil, (right_id_L ∅ (∪)).
  - intros entries. apply report_entries_seen_exact.
Qed.

End Instances.
End LoopFacts.

(** ** main, as a whole *)

Module MainMore.
Import PyStr UrlParse Tool MonadFacts SeqFacts RunFacts LoopFacts.

Section Facts.
Variable chk : string -> bool.
Variable requests_get : nat -> string -> bool -> outcome.
Variable parse : string -> Soup.
Variable read_lines : string -> option (list string).

Abbreviation main_loop' := (main_loop chk requests_get parse).
Abbreviation main_run' := (main_run chk requests_get parse).
Abbreviation main' := (main chk requests_get parse read_lines).

Lemma main_run_eq args urls st :
  main_run' args urls st =
    let o := main_loop' args (length urls) (enumerate urls) 0 st in
    match value_of o with
    | Ok v =>
        (Ok tt, state_of o,
         events_of o ++ footer args (length urls) v (state_of o))
    | Raise e => (Raise e, state_of o, events_of o)
    end.
Proof.
  unfold main_run, footer. cbv zeta.
  destruct (main_loop _ _ _ _ _ _ _ _) as [[[v|e] st1] ev1] eqn:E;
    unfold value_of, state_of, events_of; cbn [fst snd].
  - eapply bind_step_eq; [exact E | | reflexivity].
    eapply bind_step_eq; [reflexivity | | reflexivity].
    eapply bind_step_eq; [reflexivity | | reflexivity].
    destruct (negb (size (seen_urls st1) =? 0)); [|reflexivity].
    eapply bind_step_eq; [reflexivity | | reflexivity].
    by destruct (truthy_opt (arg_output args)).
  - by apply bind_raise.
Qed.

Lemma main_eq args st :
  main' args st =
    if negb (truthy_opt (arg_url args)) && negb (truthy_opt (arg_input args))
    then (Ok tt, st, [PrintHelp])
    else
      let st0 := mkState ∅ (requests st) in
      if truthy_opt (arg_url args) then
        let url := default "" (arg_url args) in
        let o := main_run' args [url] st0 in
        (value_of o, state_of o, ProcessingSingle url :: events_of o)
      else
        let input_file := default "" (arg_input args) in
        match read_lines input_file with
        | None => (Ok tt, st0, [InputNotFound input_file])
        | Some urls =>
            if bool_decide (urls = [])
            then (Ok tt, st0, [Loaded (length urls) input_file ; NoUrls])
            else
              let o := main_run' args urls st0 in
              (value_of o, state_of o,
               Loaded (length urls) input_file :: events_of o)
        end.
Proof.
  unfold main.
  destruct (negb (truthy_opt (arg_url args)) && _); [done|].
  rewrite seen_new_bind. cbv zeta.
  destruct (truthy_opt (arg_url args)).
  - eapply bind_step_eq; [reflexivity | | reflexivity].
    cbv beta iota. rewrite bool_decide_eq_false_2 by done. apply run_eta.
  - destruct (read_lines _) as [urls|]; [|done].
    destruct (bool_decide (urls = [])) eqn:Hn;
      (eapply bind_step_eq; [reflexivity | | reflexivity]);
      cbv beta iota; rewrite Hn; [done | apply run_eta].
Qed.

Lemma countdown_run j st :
  exists evs, countdown j st = (Ok tt, st, evs) /\ processed evs = [].
Proof.
  induction j as [|j (evs & Hrun & Hp)]; cbn [countdown].
  - by exists [].
  - exists (Refresh (S j) :: Sleep 1 :: evs). split; [|done].
    eapply bind_step_eq; [reflexivity | | reflexivity].
    by eapply bind_step_eq; [reflexivity | exact Hrun |].
Qed.

(** What follows [process_url] in the body of the loop. *)
Lemma after_target_run args (i n : nat) st :
  exists evs,
    (if truthy_opt (arg_url args) then
       countdown (Z.to_nat (arg_sleep args));; emit ClearLine
     else if i <? n then emit (Sleep 1) else pass) st
    = (Ok tt, st, evs) /\ processed evs = [].
Proof.
  destruct (truthy_opt (arg_url args)).
  - destruct (countdown_run (Z.to_nat (arg_sleep args)) st) as (evs & Hrun & Hp).
    exists (evs ++ [ClearLine]). split.
    + by eapply bind_step_eq; [exact Hrun | |].
    + by rewrite processed_app, Hp.
  - destruct (i <? n); [by exists [Sleep 1] | by exists []].
Qed.

(** A loop that ends without an exception has started every target, in
    order, and counts at most one vulnerable target for each. *)
Lemma main_loop_ok args n urls vulnerable_count st v :
  value_of (main_loop' args n urls vulnerable_count st) = Ok v ->
  vulnerable_count <= v <= vulnerable_count + length urls /\
  processed (events_of (main_loop' args n urls vulnerable_count st))
  = urls.*1.
Proof.
  revert vulnerable_count st.
  induction urls as [|[i url] urls IH]; intros vulnerable_count st.
  - cbn. intros [= <-]. split; [lia | done].
  - destruct (process_url chk requests_get parse url (arg_output args) st)
      as [[[b|e] st1] ev1] eqn:E1.
    + destruct (after_target_run args i n st1) as (evb & Hb & Hpb).
      set (vc' := if b then S vulnerable_count else vulnerable_count).
      destruct (main_loop' args n urls vc' st1) as [[r st2] evr] eqn:Er.
      assert (main_loop' args n ((i, url) :: urls) vulnerable_count st
              = (r, st2, Processing i n :: ev1 ++ evb ++ evr)) as ->.
      { cbn [main_loop].
        eapply bind_step_eq; [reflexivity | | reflexivity].
        eapply bind_step_eq; [exact E1 | | reflexivity].
        eapply bind_step_eq; [exact Hb | exact Er | reflexivity]. }
      unfold value_of, events_of. cbn [fst snd]. intros ->.
      destruct (IH vc' st1) as [Hv Hp]; [by rewrite Er|].
      rewrite Er in Hp. unfold events_of in Hp. cbn [snd] in Hp.
      split; [subst vc'; destruct b; cbn [length]; lia|].
      change (processed (Processing i n :: ?evs)) with (i :: processed evs).
      rewrite !processed_app, Hpb, Hp.
      pose proof (process_url_no_target chk requests_get parse url
                    (arg_output args) st) as Hnt.
      unfold no_target in Hnt. rewrite E1 in Hnt. unfold events_of in Hnt.
      cbn [snd] in Hnt. by rewrite Hnt.
    + assert (main_loop' args n ((i, url) :: urls) vulnerable_count st
              = (Raise e, st1, Processing i n :: ev1)) as ->; [|done].
      cbn [main_loop].
      eapply bind_step_eq; [reflexivity | | reflexivity].
      by apply bind_raise.
Qed.

Lemma enumerate_fst urls : (enumerate urls).*1 = seq 1 (length urls).
Proof. unfold enumerate. apply fst_zip. by rewrite length_seq. Qed.

Lemma loop_no_footer evs :
  Forall (fun e => in_loop e = true) evs ->
  summaries evs = [] /\ totals evs = [].
Proof.
  induction 1 as [|e evs He _ [IH1 IH2]]; [done|].
  by destruct e.
Qed.

Lemma footer_quiet args n v st :
  found_urls (footer args n v st) = [] /\
  saved_lines (footer args n v st) = [] /\
  processed (footer args n v st) = [].
Proof.
  unfold footer. destruct (negb _); [|done].
  by destruct (truthy_opt (arg_output args)).
Qed.

Lemma footer_summary args n v st :
  summaries (footer args n v st) = [(n, v, (Z.of_nat n - Z.of_nat v)%Z)].
Proof.
  unfold footer. destruct (negb _); [|done].
  by destruct (truthy_opt (arg_output args)).
Qed.

Lemma footer_total args n v st :
  totals (footer args n v st)
  = if negb (size (seen_urls st) =? 0) then [size (seen_urls st)] else [].
Proof.
  unfold footer. destruct (negb _); [|done].
  by destruct (truthy_opt (arg_output args)).
Qed.

Lemma length_enumerate urls : length (enumerate urls) = length urls.
Proof. by rewrite <- (length_fmap fst), enumerate_fst, length_seq. Qed.

(** The traces of [main]: the help, a missing input file, an empty list,
    or a first line followed by the loop and, unless the loop raised, by
    the lines after it. *)
Lemma main_cases args st (Q : list event -> Prop) :
  Q [PrintHelp] ->
  (forall file, Q [InputNotFound file]) ->
  (forall n file, Q [Loaded n file ; NoUrls]) ->
  (forall e urls st0 post,
     (exists url, e = ProcessingSingle url) \/ (exists n file, e = Loaded n file) ->
     seen_urls st0 = ∅ -> urls <> [] ->
     let loop := main_loop' args (length urls) (enumerate urls) 0 st0 in
     post = [] \/
     (exists v, value_of loop = Ok v /\
                post = footer args (length urls) v (state_of loop)) ->
     Q (e :: events_of loop ++ post)) ->
  Q (events_of (main' args st)).
Proof.
  intros Hhelp Hmissing Hempty Hloop. rewrite main_eq.
  destruct (negb (truthy_opt (arg_url args)) && _); [done|]. cbv zeta.
  assert (forall e urls,
    (exists url, e = ProcessingSingle url) \/ (exists n file, e = Loaded n file) ->
    urls <> [] ->
    Q (e :: events_of (main_run' args urls (mkState ∅ (requests st)))))
    as Hrun.
  { intros e urls He Hne. rewrite main_run_eq. cbv zeta.
    destruct (value_of (main_loop' _ _ _ _ _)) as [v|err] eqn:Hv.
    - apply Hloop; eauto.
    - rewrite <- (app_nil_r (events_of _)). apply Hloop; eauto. }
  destruct (truthy_opt (arg_url args)).
  - apply Hrun; eauto.
  - destruct (read_lines _) as [urls|]; [|apply Hmissing].
    destruct (bool_decide (urls = [])) eqn:Hn; [apply Hempty|].
    apply bool_decide_eq_false in Hn. apply Hrun; eauto.
Qed.

End Facts.


(** X17. The total printed at the end of a run, "Total unique URLs
    extracted", is the number of URLs the run announced. *)
Theorem main_total_unique chk requests_get parse read_lines args st n :
  n ∈ totals (events_of (main chk requests_get parse read_lines args st)) ->
  n = length (found_urls
                (events_of (main chk requests_get parse read_lines args st))).
Proof.
  apply (main_cases chk requests_get parse read_lines args st
           (fun evs => n ∈ totals evs -> n = length (found_urls evs))).
  - by intros ?%elem_of_nil.
  - by intros file ?%elem_of_nil.
  - by intros m file ?%elem_of_nil.
  - intros e urls st0 post He Hempty _ loop Hpost.
    destruct (loop_no_footer (events_of loop)) as [_ Ht].
    { apply (main_loop_loop_only chk requests_get parse). }
    assert (totals (e :: events_of loop ++ post) = totals post) as ->.
    { destruct He as [[url ->]|(m & file & ->)];
        change (totals (?x :: ?l)) with (totals l);
        unfold totals in *; by rewrite omap_app, Ht. }
    destruct Hpost as [->|(v & Hv & ->)]; [by intros ?%elem_of_nil|].
    rewrite footer_total.
    destruct (negb _); [|by intros ?%elem_of_nil].
    intros ->%list_elem_of_singleton.
    assert (found_urls (e :: events_of loop
                          ++ footer args (length urls) v (state_of loop))
            = found_urls (events_of loop)) as ->.
    { destruct (footer_quiet args (length urls) v (state_of loop)) as (Hf & _).
      destruct He as [[url ->]|(m & file & ->)];
        change (found_urls (?x :: ?l)) with (found_urls l);
        by rewrite found_urls_app, Hf, app_nil_r. }
    pose proof (main_loop_seen_exact chk requests_get parse args
                  (length urls) (enumerate urls) 0 st0) as Hs.
    pose proof (main_loop_grows chk requests_get parse args
                  (length urls) (enumerate urls) 0 st0) as (_ & [Hnd _] & _).
    unfold seen_exact in Hs. fold loop in Hs, Hnd.
    rewrite Hs, Hempty, (left_id_L ∅ (∪)). by apply size_list_to_set.
Qed.

Lemma main_total_unique_witness :
  1 = length (found_urls (events_of
        (main (fun _ => true) sample_net (fun _ => sample_soup)
              (fun _ => Some ["a.com" ; "b.com"])
              (mkArgs (Some "targets.txt") None 10 (Some "urls.txt"))
              (mkState ∅ 0)))).
Proof.
  apply (main_total_unique (fun _ => true) sample_net (fun _ => sample_soup)
           (fun _ => Some ["a.com" ; "b.com"])
           (mkArgs (Some "targets.txt") None 10 (Some "urls.txt"))
           (mkState ∅ 0) 1).
  vm_compute. apply list_elem_of_here.
Defined.

(** X18. A run prints at most one summary; its counts add up: the number
    of vulnerable targets is at most the number checked, which is at
    least 1, and the number reported as not vulnerable is their
    difference. *)
Theorem main_summary chk requests_get parse read_lines args st :
  summaries (events_of (main chk requests_get parse read_lines args st)) = []
  \/ exists checked vulnerable,
       summaries (events_of (main chk requests_get parse read_lines args st))
       = [(checked, vulnerable, Z.of_nat (checked - vulnerable))] /\
       vulnerable <= checked /\ 1 <= checked.
Proof.
  apply (main_cases chk requests_get parse read_lines args st
           (fun evs => summaries evs = [] \/
              exists checked vulnerable,
                summaries evs
                = [(checked, vulnerable, Z.of_nat (checked - vulnerable))] /\
                vulnerable <= checked /\ 1 <= checked)).
  - by left.
  - intros file. by left.
  - intros n file. by left.
  - intros e urls st0 post He _ Hne loop Hpost.
    destruct (loop_no_footer (events_of loop)) as [Hsum _].
    { apply (main_loop_loop_only chk requests_get parse). }
    assert (summaries (e :: events_of loop ++ post) = summaries post) as ->.
    { destruct He as [[url ->]|(m & file & ->)];
        change (summaries (?x :: ?l)) with (summaries l);
        unfold summaries in *; by rewrite omap_app, Hsum. }
    destruct Hpost as [->|(v & Hv & ->)]; [by left|]. right.
    destruct (main_loop_ok chk requests_get parse args (length urls)
                (enumerate urls) 0 st0 v Hv) as [Hle _].
    rewrite length_enumerate in Hle.
    exists (length urls), v. rewrite footer_summary.
    split; [by rewrite Nat2Z.inj_sub by lia|]. split; [lia|].
    destruct urls; [done | cbn [length]; lia].
Qed.





End MainMore.
